(** * magserv-js: the dictionary protocol of [src/http_server.js]

    A shallow embedding of the [HTTPServer] class: the private [Map] of
    stored words, the four [#cmd...] helpers, the [#dataHandler] that parses
    one inbound chunk and answers it, and the [#endHandler] / [#tcpHandler]
    that open and close a session.

    Conventions.
    - A JavaScript string is its sequence of UTF-16 code units ([list N]);
      [data.toString('utf-8')] is taken as already performed, so a handler
      receives the decoded string.
    - [undefined] is [None]; a value that is a string or [undefined] is an
      [option jsstring], and [truthy] is JavaScript's ToBoolean on it.
    - A [Map] is an association list in insertion order, as
      [Map.prototype.keys] enumerates it.
    - A handler is a state transformer over the server's dictionary and the
      socket it was called with; [console.log] calls are not observable
      through the socket or the dictionary and are left out. *)

From Stdlib Require Import List NArith Bool String Ascii Lia.
Import ListNotations.

Local Open Scope N_scope.
Local Open Scope list_scope.

(** ** JavaScript strings *)

Module JS.

Definition jsstring := list N.

(** A literal of the source, all of whose characters are ASCII. *)
Definition lit (s : string) : jsstring :=
  map N_of_ascii (list_ascii_of_string s).

(** The two code units of the line terminator written by the source as
    [\r\n]. *)
Definition CRLF : jsstring := [13; 10].

(** Strict equality [===] of two strings: same code units. *)
Fixpoint str_eqb (a b : jsstring) : bool :=
  match a, b with
  | [], [] => true
  | x :: a', y :: b' => (x =? y) && str_eqb a' b'
  | _, _ => false
  end.

(** The character class [\s] of ECMAScript regular expressions: WhiteSpace
    and LineTerminator code points (TAB, LF, VT, FF, CR, SP, NBSP, U+1680,
    U+2000..U+200A, U+2028, U+2029, U+202F, U+205F, U+3000, U+FEFF). *)
Definition is_space (c : N) : bool :=
  (c =? 9) || (c =? 10) || (c =? 11) || (c =? 12) || (c =? 13) || (c =? 32)
  || (c =? 160) || (c =? 5760)
  || ((8192 <=? c) && (c <=? 8202))
  || (c =? 8232) || (c =? 8233) || (c =? 8239) || (c =? 8287)
  || (c =? 12288) || (c =? 65279).

Definition non_space (c : N) : bool := negb (is_space c).

(** The match under construction is pushed when it is not empty ([+] needs
    one character at least). *)
Definition flush (cur : jsstring) : list jsstring :=
  match cur with
  | [] => []
  | _ :: _ => [cur]
  end.

(** One left-to-right pass of [/[^\s]+/g]: [cur] is the greedy match being
    extended; a [\s] character ends it. *)
Fixpoint scan (cur : jsstring) (s : jsstring) : list jsstring :=
  match s with
  | [] => flush cur
  | c :: s' =>
      if is_space c then flush cur ++ scan [] s'
      else scan (cur ++ [c]) s'
  end.

(** All the matches of [/[^\s]+/g] in [s], in order. *)
Definition tokens (s : jsstring) : list jsstring := scan [] s.

(** [s.match(/[^\s]+/g)]: the array of all matches, or [null] when there is
    none. *)
Definition match_non_space (s : jsstring) : option (list jsstring) :=
  match tokens s with
  | [] => None
  | t :: ts => Some (t :: ts)
  end.

(** [arr[i]]: [undefined] out of range. *)
Definition index (arr : list jsstring) (i : nat) : option jsstring :=
  nth_error arr i.

(** [arr.slice(n)]. *)
Definition slice (n : nat) (arr : list jsstring) : list jsstring :=
  skipn n arr.

(** [arr.join(sep)]. *)
Fixpoint join (sep : jsstring) (arr : list jsstring) : jsstring :=
  match arr with
  | [] => []
  | [x] => x
  | x :: rest => x ++ sep ++ join sep rest
  end.

(** ToBoolean of a string: only the empty string is falsy. ([undefined],
    the other falsy value that occurs, is [None] and is matched apart.) *)
Definition truthy (s : jsstring) : bool :=
  match s with
  | [] => false
  | _ :: _ => true
  end.

(** [v === s] for [v] a string or [undefined] and [s] a string. *)
Definition strict_eq (v : option jsstring) (s : jsstring) : bool :=
  match v with
  | Some x => str_eqb x s
  | None => false
  end.

(** *** [Map] with string keys and values, in insertion order *)

Definition Map := list (jsstring * jsstring).

Definition Map_new : Map := [].

Fixpoint Map_get (m : Map) (k : jsstring) : option jsstring :=
  match m with
  | [] => None
  | (k', v) :: m' => if str_eqb k' k then Some v else Map_get m' k
  end.

(** [m.set(k, v)]: an existing key keeps its place and takes the new value;
    a new key goes last. *)
Fixpoint Map_set (m : Map) (k v : jsstring) : Map :=
  match m with
  | [] => [(k, v)]
  | (k', v') :: m' =>
      if str_eqb k' k then (k', v) :: m' else (k', v') :: Map_set m' k v
  end.

Definition Map_clear (m : Map) : Map := [].

(** [Array.from(m.keys())]. *)
Definition Map_keys (m : Map) : list jsstring := map fst m.

End JS.

Export JS.

(** ** The server *)

(** Modelled from the spec: [tcp_socket.js] (the [TCPSocket] wrapper required
    on line 3) is not among the sources; the spec's Connection Session gives
    it a peer address, a peer port and a handle to the transport for writing
    and closing. The handle [internal] is represented by what the handlers do
    to it: the chunks passed to [write], in order, and whether [destroy] was
    called. *)
Record TCPSocket := mkSocket {
  addr : jsstring;
  port : N;
  written : list jsstring;
  destroyed : bool
}.

(** What a handler can read and change: the private field [#responses] of
    the server and the socket it was called with. *)
Record World := mkWorld {
  responses : Map;
  socket : TCPSocket
}.

(** Handlers as state transformers. *)
Definition M (A : Type) : Type := World -> A * World.

Definition ret {A : Type} (a : A) : M A := fun w => (a, w).

Definition bind {A B : Type} (m : M A) (k : A -> M B) : M B :=
  fun w => let (a, w') := m w in k a w'.

Declare Scope handler_scope.
Delimit Scope handler_scope with handler.
Notation "x <- m ;; k" := (bind m (fun x => k))
  (at level 61, m at next level, right associativity) : handler_scope.
Notation "m ;; k" := (bind m (fun _ => k))
  (at level 61, right associativity) : handler_scope.
Local Open Scope handler_scope.

(** The state a handler leaves behind. *)
Definition exec {A : Type} (m : M A) (w : World) : World := snd (m w).

(** [socket.internal.write(chunk)]. *)
Definition write (chunk : jsstring) : M unit :=
  fun w =>
    let s := socket w in
    (tt, mkWorld (responses w)
           (mkSocket (addr s) (port s) (written s ++ [chunk]) (destroyed s))).

(** [socket.internal.destroy()]. *)
Definition destroy : M unit :=
  fun w =>
    let s := socket w in
    (tt, mkWorld (responses w)
           (mkSocket (addr s) (port s) (written s) true)).

(** [#cmdGet], line 95. *)
Definition cmdGet (word : jsstring) : M (option jsstring) :=
  fun w => (Map_get (responses w) word, w).

(** [#cmdSet], line 105. *)
Definition cmdSet (word desc : jsstring) : M unit :=
  fun w => (tt, mkWorld (Map_set (responses w) word desc) (socket w)).

(** [#cmdClear], lines 113-115. *)
Definition cmdClear : M unit :=
  fun w => (tt, mkWorld (Map_clear (responses w)) (socket w)).

(** [#cmdAll], lines 123-127. *)
Definition cmdAll : M jsstring :=
  fun w =>
    let tmpArr := Map_keys (responses w) in
    (join (lit ", ") tmpArr, w).

(** [#dataHandler], lines 138-206. The [return] of line 146 leaves the
    function before the [switch] and before the write of line 200; every
    [break] of the [switch] goes on to line 200. Where the source tests a
    value that may be [undefined] ([stringMatch[1]], [rVal]), the [None]
    branch is the falsy outcome of that test. *)
Definition dataHandler (data : jsstring) : M unit :=
  match match_non_space data with
  | None =>
      write (lit "ERROR A command was expected." ++ CRLF)
  | Some stringMatch =>
      (if strict_eq (index stringMatch 0) (lit "GET") then
         match index stringMatch 1 with
         | None =>
             write (lit "ERROR Expected format is: GET <word>." ++ CRLF)
         | Some word =>
             if negb (truthy word) then
               write (lit "ERROR Expected format is: GET <word>." ++ CRLF)
             else
               rVal <- cmdGet word ;;
               match rVal with
               | None =>
                   write (lit "ERROR Could not find the specified word." ++ CRLF)
               | Some desc =>
                   if truthy desc then
                     write (lit "ANSWER " ++ desc ++ CRLF)
                   else
                     write (lit "ERROR Could not find the specified word."
                            ++ CRLF)
               end
         end
       else if strict_eq (index stringMatch 0) (lit "SET") then
         let extraParam := join (lit " ") (slice 2 stringMatch) in
         match index stringMatch 1 with
         | None =>
             write (lit "ERROR Expected format is: SET <word> <desc>" ++ CRLF)
         | Some word =>
             if negb (truthy word) || negb (truthy extraParam) then
               write (lit "ERROR Expected format is: SET <word> <desc>" ++ CRLF)
             else
               cmdSet word extraParam ;;
               write (lit "ANSWER Word " ++ word ++ lit " has been set." ++ CRLF)
         end
       else if strict_eq (index stringMatch 0) (lit "CLEAR") then
         cmdClear ;;
         write (lit "ANSWER The dictionary has been cleared." ++ CRLF)
       else if strict_eq (index stringMatch 0) (lit "ALL") then
         words <- cmdAll ;;
         if truthy words then
           write (lit "ANSWER Available words: " ++ words ++ lit "." ++ CRLF)
         else
           write (lit "ERROR There are no words saved." ++ CRLF)
       else
         write (lit "ERROR Command not found." ++ CRLF)) ;;
      write (lit "---------------" ++ CRLF)
  end.

(** [#endHandler], lines 76-85. *)
Definition endHandler : M unit :=
  write (lit "Finished. Bye!" ++ CRLF) ;;
  destroy.

(** What the session receives from the transport: the ['data'] and ['end']
    events that lines 224-225 subscribe to. *)
Inductive event : Type :=
| EvData (data : jsstring)
| EvEnd.

(** The listeners installed by [#tcpHandler] on lines 224-225. A destroyed
    socket emits no further event, so nothing runs for it. *)
Definition deliver (ev : event) : M unit :=
  fun w =>
    if destroyed (socket w) then (tt, w)
    else
      match ev with
      | EvData data => dataHandler data w
      | EvEnd => endHandler w
      end.

(** [#tcpHandler], lines 216-231: the greeting, then the listeners. *)
Definition tcpHandler : M unit :=
  write (lit "Successful connection." ++ CRLF) ;;
  write (lit "Available commands: GET, SET, CLEAR, ALL." ++ CRLF).

(** A session: the events of one connection, delivered in order. *)
Fixpoint deliver_all (evs : list event) : M unit :=
  match evs with
  | [] => ret tt
  | ev :: rest => deliver ev ;; deliver_all rest
  end.

(** [new TCPSocket(client)], line 217, for a connection just accepted from
    peer [a]:[p] by a server whose dictionary is [m]: nothing written yet,
    not destroyed. *)
Definition accept (m : Map) (a : jsstring) (p : N) : World :=
  mkWorld m (mkSocket a p [] false).

(** ** Vocabulary of the statements *)

(** A request line on the wire: the text, then [\r\n]. *)
Definition line (text : jsstring) : jsstring := text ++ CRLF.

Definition SET_line (w d : jsstring) : jsstring :=
  line (lit "SET " ++ w ++ lit " " ++ d).

Definition GET_line (w : jsstring) : jsstring :=
  line (lit "GET " ++ w).

(** The separator written on line 200. *)
Definition separator : jsstring := lit "---------------" ++ CRLF.

(** What one call of [#dataHandler] wrote, on a socket that had nothing
    written yet. *)
Definition reply (m : Map) (data : jsstring) : list jsstring :=
  written (socket (exec (dataHandler data) (accept m [] 0))).

(** The dictionary after one call of [#dataHandler]. *)
Definition store_after (m : Map) (data : jsstring) : Map :=
  responses (exec (dataHandler data) (accept m [] 0)).

(** [w] after the chunks were written to its socket. *)
Definition wrote (w : World) (chunks : list jsstring) : World :=
  let s := socket w in
  mkWorld (responses w)
    (mkSocket (addr s) (port s) (written s ++ chunks) (destroyed s)).

(** [w] with the dictionary replaced by [m]. *)
Definition with_responses (w : World) (m : Map) : World :=
  mkWorld m (socket w).

(** The four verbs of the [switch] on line 149. *)
Definition verbs : list jsstring :=
  [lit "GET"; lit "SET"; lit "CLEAR"; lit "ALL"].

(** The first chunk written in reply, if any: the response line. *)
Definition response (m : Map) (data : jsstring) : option jsstring :=
  hd_error (reply m data).

(** The verb of a chunk: its first token, if it has one. *)
Definition verb (data : jsstring) : option jsstring :=
  hd_error (tokens data).

(** The dictionary of a server that, since [new Map()] on line 27, handled
    the chunks of [history] in this order, from whichever connections. *)
Definition served (history : list jsstring) : Map :=
  fold_left store_after history Map_new.

(** The dictionary after the same chunk was handled [n] times. *)
Fixpoint repeated (n : nat) (data : jsstring) (m : Map) : Map :=
  match n with
  | O => m
  | S n' => repeated n' data (store_after m data)
  end.

(** [p] is a prefix of [s]. *)
Fixpoint starts_with (p s : jsstring) : bool :=
  match p, s with
  | [], _ => true
  | x :: p', y :: s' => (x =? y) && starts_with p' s'
  | _ :: _, [] => false
  end.

(** No character of [s] is in [\s]. *)
Definition no_space (s : jsstring) : bool := forallb non_space s.

(** A word as [/[^\s]+/] matches it: not empty, no [\s] character. *)
Definition is_token (s : jsstring) : bool :=
  match s with
  | [] => false
  | _ :: _ => no_space s
  end.

(** The dictionary invariant of the data model: no empty key, no key with
    a [\s] character, no empty description. *)
Definition entry_ok (e : jsstring * jsstring) : bool :=
  is_token (fst e) && truthy (snd e).

Definition store_ok (m : Map) : bool := forallb entry_ok m.

(** The keys of a [Map] are pairwise distinct. *)
Definition Map_wf (m : Map) : Prop := NoDup (Map_keys m).

(** The entries of [m] under key [k]. *)
Definition entries_for (m : Map) (k : jsstring) : list (jsstring * jsstring) :=
  filter (fun e => str_eqb (fst e) k) m.

(** ** Several connections on one server *)

(** The server of [init], lines 251-257: the one [#responses] of the
    instance, and the sockets of the connections accepted so far, in the
    order of their acceptance. *)
Record Server := mkServer {
  dictionary : Map;
  sockets : list TCPSocket
}.

(** [l] with its element of index [i] replaced, when it has one. *)
Fixpoint set_nth {A : Type} (i : nat) (x : A) (l : list A) : list A :=
  match l, i with
  | [], _ => []
  | _ :: l', O => x :: l'
  | y :: l', S i' => y :: set_nth i' x l'
  end.

(** A listener of connection [i] run to completion: it works on the
    dictionary of the server and on the socket it closes over. *)
Definition on_socket (i : nat) (h : M unit) (s : Server) : Server :=
  match nth_error (sockets s) i with
  | None => s
  | Some sock =>
      let w := exec h (mkWorld (dictionary s) sock) in
      mkServer (responses w) (set_nth i (socket w) (sockets s))
  end.

(** What the event loop hands to the callbacks of the server: a new
    connection from a peer (the listener of line 254, [#tcpHandler]), or an
    event of the socket of an accepted connection. *)
Inductive loop_event : Type :=
| Connection (a : jsstring) (p : N)
| Socket (i : nat) (ev : event).

(** One callback, run to completion before the next one starts. *)
Definition step (s : Server) (e : loop_event) : Server :=
  match e with
  | Connection a p =>
      let w := exec tcpHandler (accept (dictionary s) a p) in
      mkServer (responses w) (sockets s ++ [socket w])
  | Socket i ev => on_socket i (deliver ev) s
  end.

Definition run_loop (es : list loop_event) (s : Server) : Server :=
  fold_left step es s.

(** The server when [init] returns: the [Map] of line 27, no connection. *)
Definition started : Server := mkServer Map_new [].

(** ** More vocabulary *)

(** No carriage return and no line feed in [s]. *)
Definition one_line (s : jsstring) : bool :=
  forallb (fun c => negb (c =? 13) && negb (c =? 10)) s.

(** [s] is what lines 142 and 167 make of a description: tokens separated
    by single spaces. *)
Definition normalized (s : jsstring) : bool :=
  str_eqb (join (lit " ") (tokens s)) s.

(** Every description of [m] is normalized. *)
Definition store_normalized (m : Map) : bool :=
  forallb (fun e => normalized (snd e)) m.

(** Every character of [s] is in [\s]. *)
Definition all_space (s : jsstring) : bool := forallb is_space s.

(** The farewell of line 78. *)
Definition farewell : jsstring := lit "Finished. Bye!" ++ CRLF.

(** The greeting of lines 221-222. *)
Definition greeting : list jsstring :=
  [lit "Successful connection." ++ CRLF;
   lit "Available commands: GET, SET, CLEAR, ALL." ++ CRLF].

(** The answer of line 189 for the keys [ks]. *)
Definition ALL_answer (ks : list jsstring) : jsstring :=
  lit "ANSWER Available words: " ++ join (lit ", ") ks ++ lit "." ++ CRLF.

(** What is written in reply to the chunks of [datas], handled one after
    the other from the dictionary [m]. *)
Fixpoint replies (m : Map) (datas : list jsstring) : list jsstring :=
  match datas with
  | [] => []
  | data :: rest => reply m data ++ replies (store_after m data) rest
  end.

(** ** Strings and the regular expression *)

Lemma str_eqb_eq (a b : jsstring) : str_eqb a b = true <-> a = b.
Proof.
  revert b; induction a as [|x a IH]; intros [|y b]; simpl;
    try (split; [discriminate | congruence]); try tauto.
  rewrite andb_true_iff, N.eqb_eq, IH.
  split; [intros [-> ->]; reflexivity | intros E; injection E; auto].
Qed.

Lemma str_eqb_refl (a : jsstring) : str_eqb a a = true.
Proof. apply str_eqb_eq; reflexivity. Qed.

Lemma str_eqb_neq (a b : jsstring) : a <> b -> str_eqb a b = false.
Proof.
  intros N; destruct (str_eqb a b) eqn:E; [|reflexivity].
  apply str_eqb_eq in E; contradiction.
Qed.

Lemma str_eqb_sym (a b : jsstring) : str_eqb a b = str_eqb b a.
Proof.
  destruct (str_eqb b a) eqn:E.
  - apply str_eqb_eq in E; subst; apply str_eqb_refl.
  - apply str_eqb_neq; intros ->; rewrite str_eqb_refl in E; discriminate.
Qed.

Lemma no_space_app (a b : jsstring) :
  no_space (a ++ b) = no_space a && no_space b.
Proof. apply forallb_app. Qed.

Lemma is_token_no_space (t : jsstring) : is_token t = true -> no_space t = true.
Proof. destruct t; [discriminate | auto]. Qed.

Lemma is_token_truthy (t : jsstring) : is_token t = true -> truthy t = true.
Proof. destruct t; [discriminate | auto]. Qed.

(** A run of characters outside [\s] extends the current match. *)
Lemma scan_no_space (a : jsstring) :
  no_space a = true ->
  forall cur s, scan cur (a ++ s) = scan (cur ++ a) s.
Proof.
  induction a as [|c a IH]; intros Ha cur s; simpl.
  - rewrite app_nil_r; reflexivity.
  - simpl in Ha; apply andb_true_iff in Ha as [Hc Ha].
    unfold non_space in Hc; apply negb_true_iff in Hc; rewrite Hc.
    rewrite (IH Ha), <- app_assoc; reflexivity.
Qed.

(** A [\s] character ends the current match, whatever came before it. *)
Lemma scan_app_space (c : N) (b : jsstring) :
  is_space c = true ->
  forall a cur, scan cur (a ++ c :: b) = scan cur a ++ scan [] b.
Proof.
  intros Hc; induction a as [|x a IH]; intros cur; simpl.
  - rewrite Hc; reflexivity.
  - destruct (is_space x).
    + rewrite IH, app_assoc; reflexivity.
    + apply IH.
Qed.

Lemma tokens_app_space (a : jsstring) (c : N) (b : jsstring) :
  is_space c = true -> tokens (a ++ c :: b) = tokens a ++ tokens b.
Proof. intros Hc; apply scan_app_space; exact Hc. Qed.

Lemma tokens_cons_space (c : N) (b : jsstring) :
  is_space c = true -> tokens (c :: b) = tokens b.
Proof. intros Hc; apply (tokens_app_space [] c b Hc). Qed.

Lemma tokens_token (t : jsstring) : is_token t = true -> tokens t = [t].
Proof.
  intros Ht; unfold tokens.
  pose proof (scan_no_space t (is_token_no_space t Ht) [] []) as E.
  rewrite app_nil_r in E; rewrite E.
  destruct t; [discriminate | reflexivity].
Qed.

Lemma tokens_CRLF : tokens CRLF = [].
Proof. reflexivity. Qed.

(** A [\r\n] between two texts separates their tokens and adds none. *)
Lemma tokens_app_CRLF (a b : jsstring) :
  tokens (a ++ CRLF ++ b) = tokens a ++ tokens b.
Proof.
  unfold CRLF; simpl.
  rewrite (tokens_app_space a 13 (10 :: b) eq_refl).
  rewrite (tokens_cons_space 10 b eq_refl); reflexivity.
Qed.

Lemma tokens_line (text : jsstring) : tokens (line text) = tokens text.
Proof.
  unfold line; rewrite <- (app_nil_r CRLF), tokens_app_CRLF.
  apply app_nil_r.
Qed.

(** Every match is a token: not empty and free of [\s]. *)
Lemma scan_tokens (s : jsstring) :
  forall cur, no_space cur = true ->
  forallb is_token (scan cur s) = true.
Proof.
  assert (F : forall cur, no_space cur = true ->
                          forallb is_token (flush cur) = true).
  { intros [|c cur] H; simpl; [reflexivity | rewrite andb_true_r; exact H]. }
  induction s as [|c s IH]; intros cur Hcur; simpl.
  - apply F, Hcur.
  - destruct (is_space c) eqn:Hc.
    + rewrite forallb_app, (F cur Hcur), (IH [] eq_refl); reflexivity.
    + apply IH; rewrite no_space_app, Hcur; simpl.
      unfold non_space; rewrite Hc; reflexivity.
Qed.

Lemma tokens_are_tokens (s : jsstring) : forallb is_token (tokens s) = true.
Proof. apply scan_tokens; reflexivity. Qed.

(** Tokens joined with single spaces are found again by the match. *)
Lemma tokens_join (ts : list jsstring) :
  forallb is_token ts = true -> tokens (join (lit " ") ts) = ts.
Proof.
  induction ts as [|t ts IH]; intros H; [reflexivity|].
  simpl in H; apply andb_true_iff in H as [Ht Hts].
  destruct ts as [|t' ts].
  - simpl; apply tokens_token, Ht.
  - change (join (lit " ") (t :: t' :: ts))
      with (t ++ 32 :: join (lit " ") (t' :: ts)).
    rewrite (tokens_app_space t 32 _ eq_refl), (tokens_token t Ht), (IH Hts).
    reflexivity.
Qed.

(** A non-empty array of tokens joins to a non-empty string. *)
Lemma join_truthy (sep : jsstring) (t : jsstring) (ts : list jsstring) :
  truthy t = true -> truthy (join sep (t :: ts)) = true.
Proof.
  destruct t as [|c t]; [discriminate|]; intros _.
  destruct ts; reflexivity.
Qed.

(** The match on a few chunks: leading, trailing and repeated whitespace
    of any kind gives no token; no token at all gives [null]. *)
Example tokens_mixed_whitespace :
  tokens (9 :: lit "  SET" ++ [9; 160] ++ lit "foo" ++ [12288; 13; 10]
          ++ lit "a  b " ++ CRLF)
    = [lit "SET"; lit "foo"; lit "a"; lit "b"].
Proof. reflexivity. Qed.

Example match_blank_is_null :
  match_non_space [] = None /\ match_non_space (lit "  " ++ CRLF) = None.
Proof. split; reflexivity. Qed.

Lemma match_non_space_tokens (data : jsstring) :
  match_non_space data =
    match tokens data with [] => None | ts => Some ts end.
Proof. unfold match_non_space; destruct (tokens data); reflexivity. Qed.

(** ** The handler, verb by verb *)

Lemma write_wrote (chunk : jsstring) (w : World) :
  write chunk w = (tt, wrote w [chunk]).
Proof. reflexivity. Qed.

Lemma wrote_wrote (w : World) (a b : list jsstring) :
  wrote (wrote w a) b = wrote w (a ++ b).
Proof. unfold wrote; simpl; rewrite app_assoc; reflexivity. Qed.

Lemma with_responses_same (w : World) : with_responses w (responses w) = w.
Proof. destruct w; reflexivity. Qed.

(** Unfolds the handler on a chunk whose tokens are known and decides the
    tests of the [switch] between literals. *)
Ltac handler_on H :=
  unfold exec, dataHandler;
  rewrite match_non_space_tokens, H;
  cbv [index nth_error strict_eq slice skipn];
  repeat match goal with
    | |- context [str_eqb (lit ?a) (lit ?b)] =>
        let r := eval vm_compute in (str_eqb (lit a) (lit b)) in
        change (str_eqb (lit a) (lit b)) with r
    end;
  cbv iota.

(** Runs the writes that are left. *)
Ltac run_writes :=
  unfold bind, cmdSet, cmdClear, cmdGet, cmdAll;
  rewrite ?write_wrote; cbn [snd fst];
  rewrite ?write_wrote; cbn [snd fst];
  rewrite ?wrote_wrote; cbn [app].

Lemma dataHandler_blank (data : jsstring) (w : World) :
  tokens data = [] ->
  exec (dataHandler data) w =
    wrote w [lit "ERROR A command was expected." ++ CRLF].
Proof.
  intros H; unfold exec, dataHandler.
  rewrite match_non_space_tokens, H; reflexivity.
Qed.

Lemma dataHandler_GET_alone (data : jsstring) (w : World) :
  tokens data = [lit "GET"] ->
  exec (dataHandler data) w =
    wrote w [lit "ERROR Expected format is: GET <word>." ++ CRLF; separator].
Proof. intros H; handler_on H; run_writes; reflexivity. Qed.

(** The tokens of a chunk after the first are tokens. *)
Lemma tokens_tail (data : jsstring) (v : jsstring) (rest : list jsstring) :
  tokens data = v :: rest -> forallb is_token rest = true.
Proof.
  intros H; pose proof (tokens_are_tokens data) as T.
  rewrite H in T; simpl in T; apply andb_true_iff in T; tauto.
Qed.

Lemma dataHandler_GET (data word : jsstring) (rest : list jsstring) (w : World) :
  tokens data = lit "GET" :: word :: rest ->
  exec (dataHandler data) w =
    wrote w
      [match Map_get (responses w) word with
       | Some (c :: desc) => lit "ANSWER " ++ (c :: desc) ++ CRLF
       | _ => lit "ERROR Could not find the specified word." ++ CRLF
       end; separator].
Proof.
  intros H; pose proof (tokens_tail _ _ _ H) as T.
  simpl in T; apply andb_true_iff in T as [T _]; apply is_token_truthy in T.
  handler_on H; rewrite T; cbn [negb].
  unfold bind, cmdGet.
  destruct (Map_get (responses w) word) as [[|c desc]|]; cbn [truthy];
    run_writes; reflexivity.
Qed.

Lemma dataHandler_SET_short (data : jsstring) (rest : list jsstring) (w : World) :
  tokens data = lit "SET" :: rest -> (List.length rest <= 1)%nat ->
  exec (dataHandler data) w =
    wrote w
      [lit "ERROR Expected format is: SET <word> <desc>" ++ CRLF; separator].
Proof.
  intros H L; destruct rest as [|word [|t ts]]; [| |simpl in L; lia];
    handler_on H; [|cbn [join truthy negb]; rewrite orb_true_r];
    run_writes; reflexivity.
Qed.

Lemma dataHandler_SET (data word t : jsstring) (ts : list jsstring) (w : World) :
  tokens data = lit "SET" :: word :: t :: ts ->
  exec (dataHandler data) w =
    wrote (with_responses w
             (Map_set (responses w) word (join (lit " ") (t :: ts))))
      [lit "ANSWER Word " ++ word ++ lit " has been set." ++ CRLF; separator].
Proof.
  intros H; pose proof (tokens_tail _ _ _ H) as T.
  simpl in T; apply andb_true_iff in T as [Tw T].
  apply andb_true_iff in T as [Tt _].
  apply is_token_truthy in Tw, Tt.
  handler_on H.
  rewrite Tw, (join_truthy (lit " ") t ts Tt); cbn [negb orb].
  run_writes; reflexivity.
Qed.

Lemma dataHandler_CLEAR (data : jsstring) (rest : list jsstring) (w : World) :
  tokens data = lit "CLEAR" :: rest ->
  exec (dataHandler data) w =
    wrote (with_responses w [])
      [lit "ANSWER The dictionary has been cleared." ++ CRLF; separator].
Proof. intros H; handler_on H; run_writes; reflexivity. Qed.

Lemma dataHandler_ALL (data : jsstring) (rest : list jsstring) (w : World) :
  tokens data = lit "ALL" :: rest ->
  exec (dataHandler data) w =
    wrote w
      [match join (lit ", ") (Map_keys (responses w)) with
       | [] => lit "ERROR There are no words saved." ++ CRLF
       | c :: words =>
           lit "ANSWER Available words: " ++ (c :: words) ++ lit "." ++ CRLF
       end; separator].
Proof.
  intros H; handler_on H; unfold bind, cmdAll.
  destruct (join (lit ", ") (Map_keys (responses w))); cbn [truthy];
    run_writes; reflexivity.
Qed.

Lemma dataHandler_other (data v : jsstring) (rest : list jsstring) (w : World) :
  tokens data = v :: rest -> ~ In v verbs ->
  exec (dataHandler data) w =
    wrote w [lit "ERROR Command not found." ++ CRLF; separator].
Proof.
  intros H N; handler_on H.
  rewrite !str_eqb_neq by (intros ->; apply N; simpl; tauto).
  run_writes; reflexivity.
Qed.

(** ** The dictionary *)

Lemma Map_get_set_same (m : Map) (k v : jsstring) :
  Map_get (Map_set m k v) k = Some v.
Proof.
  induction m as [|[k' v'] m IH]; simpl.
  - rewrite str_eqb_refl; reflexivity.
  - destruct (str_eqb k' k) eqn:E; simpl; rewrite E; auto.
Qed.

Lemma Map_get_set_other (m : Map) (k v k0 : jsstring) :
  k0 <> k -> Map_get (Map_set m k v) k0 = Map_get m k0.
Proof.
  intros N; induction m as [|[k' v'] m IH]; simpl.
  - rewrite str_eqb_neq; auto.
  - destruct (str_eqb k' k) eqn:E; simpl.
    + apply str_eqb_eq in E; subst k'.
      rewrite (str_eqb_neq k k0); auto.
    + rewrite IH; reflexivity.
Qed.

(** Setting twice the same entry is setting it once. *)
Lemma Map_set_twice (m : Map) (k v : jsstring) :
  Map_set (Map_set m k v) k v = Map_set m k v.
Proof.
  induction m as [|[k' v'] m IH]; simpl.
  - rewrite str_eqb_refl; reflexivity.
  - destruct (str_eqb k' k) eqn:E; simpl; rewrite E; congruence.
Qed.

Lemma Map_set_keys (m : Map) (k v : jsstring) :
  Map_keys (Map_set m k v) =
    if existsb (fun k' => str_eqb k' k) (Map_keys m) then Map_keys m
    else Map_keys m ++ [k].
Proof.
  induction m as [|[k' v'] m IH]; simpl; [reflexivity|].
  destruct (str_eqb k' k) eqn:E; simpl; [reflexivity|].
  rewrite IH; destruct (existsb _ (Map_keys m)); reflexivity.
Qed.

Lemma Map_set_wf (m : Map) (k v : jsstring) :
  Map_wf m -> Map_wf (Map_set m k v).
Proof.
  unfold Map_wf; intros W; rewrite Map_set_keys.
  destruct (existsb _ (Map_keys m)) eqn:E; [exact W|].
  apply NoDup_app; [exact W | repeat constructor; simpl; tauto |].
  intros x Hx [<-|[]].
  assert (existsb (fun k' => str_eqb k' k) (Map_keys m) = true);
    [|congruence].
  apply existsb_exists; exists k; split; [exact Hx | apply str_eqb_refl].
Qed.

(** In a [Map], the key just set has one entry, with the value set. *)
Lemma entries_for_set (m : Map) (k v : jsstring) :
  Map_wf m -> entries_for (Map_set m k v) k = [(k, v)].
Proof.
  unfold Map_wf, entries_for.
  induction m as [|[k' v'] m IH]; simpl; intros W.
  - rewrite str_eqb_refl; reflexivity.
  - inversion W as [|? ? Hk' W']; subst.
    destruct (str_eqb k' k) eqn:E; simpl; rewrite E.
    + apply str_eqb_eq in E; subst k'; f_equal.
      clear IH W W'; induction m as [|[k2 v2] m IH2]; simpl; [reflexivity|].
      simpl in Hk'.
      rewrite str_eqb_neq by tauto.
      apply IH2; tauto.
    + apply IH, W'.
Qed.

Lemma Map_set_ok (m : Map) (k v : jsstring) :
  store_ok m = true -> is_token k = true -> truthy v = true ->
  store_ok (Map_set m k v) = true.
Proof.
  intros O K V; induction m as [|[k' v'] m IH]; simpl.
  - unfold entry_ok; simpl; rewrite K, V; reflexivity.
  - simpl in O; apply andb_true_iff in O as [O1 O2].
    destruct (str_eqb k' k) eqn:E; simpl.
    + rewrite O2, andb_true_r.
      unfold entry_ok in *; simpl in *.
      apply andb_true_iff in O1 as [-> _]; rewrite V; reflexivity.
    + rewrite O1, (IH O2); reflexivity.
Qed.

(** The keys of a dictionary that satisfies the invariant join to the empty
    string only when there is none. *)
Lemma join_keys_truthy (m : Map) :
  store_ok m = true -> m <> [] ->
  truthy (join (lit ", ") (Map_keys m)) = true.
Proof.
  destruct m as [|[k v] m]; [congruence|]; intros O _.
  simpl in O; apply andb_true_iff in O as [O _].
  unfold entry_ok in O; apply andb_true_iff in O as [O _].
  apply join_truthy, is_token_truthy, O.
Qed.

(** ** Replies and dictionaries of one call *)

Lemma tokens_SET_line (w d : jsstring) :
  is_token w = true ->
  tokens (SET_line w d) = lit "SET" :: w :: tokens d.
Proof.
  intros W; unfold SET_line; rewrite tokens_line.
  change (lit "SET " ++ w ++ lit " " ++ d) with (lit "SET" ++ 32 :: w ++ 32 :: d).
  rewrite (tokens_app_space (lit "SET") 32 _ eq_refl).
  rewrite (tokens_app_space w 32 d eq_refl), (tokens_token w W).
  reflexivity.
Qed.

Lemma tokens_GET_line (w : jsstring) :
  is_token w = true -> tokens (GET_line w) = [lit "GET"; w].
Proof.
  intros W; unfold GET_line; rewrite tokens_line.
  change (lit "GET " ++ w) with (lit "GET" ++ 32 :: w).
  rewrite (tokens_app_space (lit "GET") 32 w eq_refl), (tokens_token w W).
  reflexivity.
Qed.

Lemma store_after_SET (m : Map) (data word t : jsstring) (ts : list jsstring) :
  tokens data = lit "SET" :: word :: t :: ts ->
  store_after m data = Map_set m word (join (lit " ") (t :: ts)).
Proof.
  intros H; unfold store_after; rewrite (dataHandler_SET _ _ _ _ _ H).
  reflexivity.
Qed.

Lemma store_after_CLEAR (m : Map) (data : jsstring) (rest : list jsstring) :
  tokens data = lit "CLEAR" :: rest -> store_after m data = [].
Proof.
  intros H; unfold store_after; rewrite (dataHandler_CLEAR _ _ _ H).
  reflexivity.
Qed.

Lemma reply_GET_found (m : Map) (data word desc : jsstring) (rest : list jsstring) :
  tokens data = lit "GET" :: word :: rest ->
  Map_get m word = Some desc -> truthy desc = true ->
  reply m data = [lit "ANSWER " ++ desc ++ CRLF; separator].
Proof.
  intros H G T; unfold reply; rewrite (dataHandler_GET _ _ _ _ H).
  simpl; rewrite G; destruct desc; [discriminate | reflexivity].
Qed.

(** After a well-formed [SET], a [GET] of the word answers with the tokens
    of the description joined by single spaces. *)
Lemma reply_GET_after_SET (m : Map) (sdata gdata word t : jsstring)
    (ts rest : list jsstring) :
  tokens sdata = lit "SET" :: word :: t :: ts ->
  tokens gdata = lit "GET" :: word :: rest ->
  reply (store_after m sdata) gdata =
    [lit "ANSWER " ++ join (lit " ") (t :: ts) ++ CRLF; separator].
Proof.
  intros HS HG; pose proof (tokens_tail _ _ _ HS) as T.
  simpl in T; apply andb_true_iff in T as [_ T].
  apply andb_true_iff in T as [Tt _].
  apply (reply_GET_found _ _ word _ rest HG).
  - rewrite (store_after_SET _ _ _ _ _ HS); apply Map_get_set_same.
  - apply join_truthy, is_token_truthy, Tt.
Qed.

(** What the handler does not change unless the verb is [SET] or [CLEAR]. *)
Lemma responses_unchanged (w : World) (data : jsstring) :
  verb data <> Some (lit "SET") -> verb data <> Some (lit "CLEAR") ->
  responses (exec (dataHandler data) w) = responses w.
Proof.
  intros NS NC; unfold verb in NS, NC.
  destruct (tokens data) as [|v rest] eqn:H.
  - rewrite (dataHandler_blank _ _ H); reflexivity.
  - simpl in NS, NC.
    destruct (in_dec (list_eq_dec N.eq_dec) v verbs) as [I|NI].
    + simpl in I; destruct I as [<-|[<-|[<-|[<-|[]]]]]; try congruence.
      * destruct rest as [|word rest].
        -- rewrite (dataHandler_GET_alone _ _ H); reflexivity.
        -- rewrite (dataHandler_GET _ _ _ _ H); reflexivity.
      * rewrite (dataHandler_ALL _ _ _ H); reflexivity.
    + rewrite (dataHandler_other _ _ _ _ H NI); reflexivity.
Qed.

Lemma store_after_unchanged (m : Map) (data : jsstring) :
  verb data <> Some (lit "SET") -> verb data <> Some (lit "CLEAR") ->
  store_after m data = m.
Proof. intros NS NC; apply (responses_unchanged (accept m [] 0) data NS NC). Qed.

(** One call writes one response line, which begins with [ANSWER ] or
    [ERROR ]; the separator follows it unless the chunk had no token. *)
Lemma reply_shape (m : Map) (data : jsstring) :
  exists r : jsstring,
    (starts_with (lit "ANSWER ") r || starts_with (lit "ERROR ") r) = true /\
    reply m data = match tokens data with [] => [r] | _ :: _ => [r; separator] end.
Proof.
  unfold reply.
  destruct (tokens data) as [|v rest] eqn:H.
  - rewrite (dataHandler_blank _ _ H); eexists; split; [|reflexivity].
    reflexivity.
  - destruct (in_dec (list_eq_dec N.eq_dec) v verbs) as [I|NI].
    + simpl in I; destruct I as [<-|[<-|[<-|[<-|[]]]]].
      * destruct rest as [|word rest].
        -- rewrite (dataHandler_GET_alone _ _ H).
           eexists; split; [|reflexivity]; reflexivity.
        -- rewrite (dataHandler_GET _ _ _ _ H).
           eexists; split; [|reflexivity].
           simpl; destruct (Map_get m word) as [[|c desc]|]; reflexivity.
      * destruct rest as [|word [|t ts]].
        -- rewrite (dataHandler_SET_short _ _ _ H ltac:(simpl; lia)).
           eexists; split; [|reflexivity]; reflexivity.
        -- rewrite (dataHandler_SET_short _ _ _ H ltac:(simpl; lia)).
           eexists; split; [|reflexivity]; reflexivity.
        -- rewrite (dataHandler_SET _ _ _ _ _ H).
           eexists; split; [|reflexivity]; reflexivity.
      * rewrite (dataHandler_CLEAR _ _ _ H).
        eexists; split; [|reflexivity]; reflexivity.
      * rewrite (dataHandler_ALL _ _ _ H).
        eexists; split; [|reflexivity].
        simpl; destruct (join (lit ", ") (Map_keys m)); reflexivity.
    + rewrite (dataHandler_other _ _ _ _ H NI).
      eexists; split; [|reflexivity]; reflexivity.
Qed.

Lemma store_after_SET_short (m : Map) (data : jsstring) (rest : list jsstring) :
  tokens data = lit "SET" :: rest -> (List.length rest <= 1)%nat ->
  store_after m data = m.
Proof.
  intros H L; unfold store_after; rewrite (dataHandler_SET_short _ _ _ H L).
  reflexivity.
Qed.

(** All that a call does to the world: it may replace the dictionary and it
    appends to what was written; it never destroys the socket. *)
Lemma dataHandler_frame (w : World) (data : jsstring) :
  exists (m' : Map) (chunks : list jsstring),
    exec (dataHandler data) w = wrote (with_responses w m') chunks.
Proof.
  assert (F : forall chunks, exists m' chunks',
               wrote w chunks = wrote (with_responses w m') chunks')
    by (intros chunks; exists (responses w), chunks; reflexivity).
  destruct (tokens data) as [|v rest] eqn:H.
  - rewrite (dataHandler_blank _ _ H); apply F.
  - destruct (in_dec (list_eq_dec N.eq_dec) v verbs) as [I|NI].
    + simpl in I; destruct I as [<-|[<-|[<-|[<-|[]]]]].
      * destruct rest as [|word rest].
        -- rewrite (dataHandler_GET_alone _ _ H); apply F.
        -- rewrite (dataHandler_GET _ _ _ _ H); apply F.
      * destruct rest as [|word [|t ts]].
        -- rewrite (dataHandler_SET_short _ _ _ H) by (simpl; lia); apply F.
        -- rewrite (dataHandler_SET_short _ _ _ H) by (simpl; lia); apply F.
        -- rewrite (dataHandler_SET _ _ _ _ _ H); eauto.
      * rewrite (dataHandler_CLEAR _ _ _ H); eauto.
      * rewrite (dataHandler_ALL _ _ _ H); apply F.
    + rewrite (dataHandler_other _ _ _ _ H NI); apply F.
Qed.

(** No command closes the connection. *)
Lemma dataHandler_keeps_open (w : World) (data : jsstring) :
  destroyed (socket (exec (dataHandler data) w)) = destroyed (socket w).
Proof.
  destruct (dataHandler_frame w data) as [m' [chunks ->]]; reflexivity.
Qed.

(** The half-close of the peer does: the farewell is written and the socket
    destroyed, after which nothing is handled. *)
Lemma end_closes (w : World) :
  destroyed (socket w) = false ->
  let w' := exec (deliver EvEnd) w in
  written (socket w') = written (socket w) ++ [lit "Finished. Bye!" ++ CRLF] /\
  destroyed (socket w') = true /\
  (forall ev : event, exec (deliver ev) w' = w').
Proof.
  intros D w'; unfold w', exec, deliver; rewrite D; simpl.
  repeat split; intros ev; reflexivity.
Qed.

(** A whole session, from the greeting to the farewell. *)
Example session_run :
  written (socket (exec (tcpHandler ;;
                         deliver_all [EvData (SET_line (lit "foo") (lit "bar"));
                                      EvData CRLF;
                                      EvData (GET_line (lit "foo"));
                                      EvEnd;
                                      EvData (line (lit "ALL"))])
                     (accept Map_new (lit "127.0.0.1") 50000)))
    = [lit "Successful connection." ++ CRLF;
       lit "Available commands: GET, SET, CLEAR, ALL." ++ CRLF;
       lit "ANSWER Word foo has been set." ++ CRLF; separator;
       lit "ERROR A command was expected." ++ CRLF;
       lit "ANSWER bar" ++ CRLF; separator;
       lit "Finished. Bye!" ++ CRLF].
Proof. reflexivity. Qed.

(** The invariant of the dictionary is kept by every call. *)
Lemma store_after_ok (m : Map) (data : jsstring) :
  store_ok m = true -> store_ok (store_after m data) = true.
Proof.
  intros O.
  destruct (list_eq_dec N.eq_dec (hd [] (tokens data)) (lit "SET")) as [S|NS].
  - destruct (tokens data) as [|v [|word [|t ts]]] eqn:H;
      [discriminate S | simpl in S; subst v ..].
    + rewrite (store_after_SET_short _ _ _ H); [exact O | simpl; lia].
    + rewrite (store_after_SET_short _ _ _ H); [exact O | simpl; lia].
    + rewrite (store_after_SET _ _ _ _ _ H).
      pose proof (tokens_tail _ _ _ H) as T.
      simpl in T; apply andb_true_iff in T as [Tw T].
      apply andb_true_iff in T as [Tt _].
      apply Map_set_ok; [exact O | exact Tw |].
      apply join_truthy, is_token_truthy, Tt.
  - destruct (list_eq_dec N.eq_dec (hd [] (tokens data)) (lit "CLEAR"))
      as [C|NC].
    + destruct (tokens data) as [|v rest] eqn:H; [discriminate C|].
      simpl in C; subst v.
      rewrite (store_after_CLEAR _ _ _ H); reflexivity.
    + rewrite store_after_unchanged; [exact O | |];
        unfold verb; destruct (tokens data); simpl in *; congruence.
Qed.

Lemma served_snoc (history : list jsstring) (data : jsstring) :
  served (history ++ [data]) = store_after (served history) data.
Proof. unfold served; rewrite fold_left_app; reflexivity. Qed.

(** Every dictionary the server can hold satisfies the invariant. *)
Lemma served_ok (history : list jsstring) : store_ok (served history) = true.
Proof.
  induction history as [|data history IH] using rev_ind; [reflexivity|].
  rewrite served_snoc; apply store_after_ok, IH.
Qed.

Lemma store_after_wf (m : Map) (data : jsstring) :
  Map_wf m -> Map_wf (store_after m data).
Proof.
  intros W.
  destruct (list_eq_dec N.eq_dec (hd [] (tokens data)) (lit "SET")) as [S|NS].
  - destruct (tokens data) as [|v [|word [|t ts]]] eqn:H;
      [discriminate S | simpl in S; subst v ..].
    + rewrite (store_after_SET_short _ _ _ H); [exact W | simpl; lia].
    + rewrite (store_after_SET_short _ _ _ H); [exact W | simpl; lia].
    + rewrite (store_after_SET _ _ _ _ _ H); apply Map_set_wf, W.
  - destruct (list_eq_dec N.eq_dec (hd [] (tokens data)) (lit "CLEAR"))
      as [C|NC].
    + destruct (tokens data) as [|v rest] eqn:H; [discriminate C|].
      simpl in C; subst v.
      rewrite (store_after_CLEAR _ _ _ H); constructor.
    + rewrite store_after_unchanged; [exact W | |];
        unfold verb; destruct (tokens data); simpl in *; congruence.
Qed.

Lemma served_wf (history : list jsstring) : Map_wf (served history).
Proof.
  induction history as [|data history IH] using rev_ind; [constructor|].
  rewrite served_snoc; apply store_after_wf, IH.
Qed.

(** ** The properties of the specification *)

(** C1, as stated, fails: the word [foo] and the description [a  b] (two
    spaces) are not empty and [foo] has no whitespace, yet after
    [SET foo a  b] the answer to [GET foo] is [ANSWER a b], with a single
    space, and not [ANSWER a  b]. *)
Lemma C1_counterexample :
  let w := lit "foo" in
  let d := lit "a  b" in
  (w <> [] /\ d <> [] /\ no_space w = true) /\
  response (store_after Map_new (SET_line w d)) (GET_line w)
    = Some (lit "ANSWER a b" ++ CRLF) /\
  response (store_after Map_new (SET_line w d)) (GET_line w)
    <> Some (lit "ANSWER " ++ d ++ CRLF).
Proof.
  cbv zeta; split; [|split].
  - split; [discriminate | split; [discriminate | reflexivity]].
  - vm_compute; reflexivity.
  - vm_compute; discriminate.
Qed.

(** C1 (amended). For every word [w] that is not empty and has no
    whitespace, and every description [d] with at least one character that is
    not whitespace, the line [SET w d] followed by the line [GET w] on the
    same dictionary is answered [ANSWER d'], then the separator, where [d']
    is the tokens of [d] joined by single spaces; so the answer is
    [ANSWER d] whenever [d] is already of that form. *)
Theorem C1_set_then_get (m : Map) (w d : jsstring) :
  is_token w = true -> tokens d <> [] ->
  reply (store_after m (SET_line w d)) (GET_line w)
    = [lit "ANSWER " ++ join (lit " ") (tokens d) ++ CRLF; separator] /\
  (join (lit " ") (tokens d) = d ->
   reply (store_after m (SET_line w d)) (GET_line w)
     = [lit "ANSWER " ++ d ++ CRLF; separator]).
Proof.
  intros W D.
  assert (R : reply (store_after m (SET_line w d)) (GET_line w)
              = [lit "ANSWER " ++ join (lit " ") (tokens d) ++ CRLF; separator]).
  { destruct (tokens d) as [|t ts] eqn:E; [congruence|].
    apply (reply_GET_after_SET m _ _ w t ts []).
    - rewrite (tokens_SET_line w d W), E; reflexivity.
    - apply tokens_GET_line, W. }
  split; [exact R | intros E; rewrite E in R; exact R].
Qed.

Lemma C1_set_then_get_witness :
  is_token (lit "foo") = true /\ tokens (lit "bar baz") <> [] /\
  reply (store_after Map_new (SET_line (lit "foo") (lit "bar baz")))
        (GET_line (lit "foo"))
    = [lit "ANSWER bar baz" ++ CRLF; separator].
Proof.
  split; [reflexivity | split; [discriminate |]].
  apply (C1_set_then_get Map_new (lit "foo") (lit "bar baz"));
    [reflexivity | discriminate | reflexivity].
Defined.

(** C2, at the input where the code departs from it: a chunk that is a
    blank line is answered by the error line alone, on every dictionary;
    the [return] of line 146 comes before the write of the separator on
    line 200. *)
Theorem C2_blank_line_has_no_separator (m : Map) :
  reply m (line []) = [lit "ERROR A command was expected." ++ CRLF] /\
  ~ In separator (reply m (line [])).
Proof.
  assert (R : reply m (line [])
              = [lit "ERROR A command was expected." ++ CRLF]).
  { unfold reply; rewrite (dataHandler_blank (line []) _ eq_refl).
    reflexivity. }
  split; [exact R|].
  rewrite R; intros [E|[]]; discriminate E.
Qed.

(** C3. On every dictionary the server can hold, a chunk whose verb is
    [ALL] is answered [ERROR There are no words saved.] when the dictionary
    is empty and [ANSWER Available words: <keys joined by comma-space>.]
    when it is not, the separator following; the dictionary left by a
    [CLEAR] is empty, so [ALL] right after it gets the error. *)
Theorem C3_all (history : list jsstring) (data : jsstring) (rest : list jsstring) :
  tokens data = lit "ALL" :: rest ->
  reply (served history) data =
    [match served history with
     | [] => lit "ERROR There are no words saved." ++ CRLF
     | _ :: _ =>
         lit "ANSWER Available words: "
         ++ join (lit ", ") (Map_keys (served history)) ++ lit "." ++ CRLF
     end; separator] /\
  (forall (m : Map) (cdata : jsstring) (crest : list jsstring),
     tokens cdata = lit "CLEAR" :: crest ->
     reply (store_after m cdata) data =
       [lit "ERROR There are no words saved." ++ CRLF; separator]).
Proof.
  intros H; split.
  - unfold reply; rewrite (dataHandler_ALL _ _ _ H); simpl.
    pose proof (served_ok history) as O.
    destruct (served history) as [|e m] eqn:E; [reflexivity|].
    pose proof (join_keys_truthy (e :: m) O ltac:(discriminate)) as T.
    destruct (join (lit ", ") (Map_keys (e :: m))); [discriminate T|].
    reflexivity.
  - intros m cdata crest C.
    rewrite (store_after_CLEAR _ _ _ C).
    unfold reply; rewrite (dataHandler_ALL _ _ _ H); reflexivity.
Qed.

Lemma C3_all_witness :
  tokens (line (lit "ALL")) = [lit "ALL"] /\
  reply (served [SET_line (lit "foo") (lit "bar");
                 SET_line (lit "qux") (lit "a b")]) (line (lit "ALL"))
    = [lit "ANSWER Available words: foo, qux." ++ CRLF; separator].
Proof.
  split; [reflexivity|].
  apply (C3_all [SET_line (lit "foo") (lit "bar");
                 SET_line (lit "qux") (lit "a b")]
                (line (lit "ALL")) [] eq_refl).
Defined.

(** C4. For every chunk whose tokens are [SET], a word, and one or more
    description tokens, whatever the runs of whitespace between them, the
    description stored under the word is those tokens joined by single
    spaces, and a following [GET] of the word answers with it; so
    [SET foo   has   lots of   spaces] then [GET foo] gives
    [ANSWER has lots of spaces]. *)
Theorem C4_description_normalized (m : Map) (data word t : jsstring)
    (ts : list jsstring) :
  tokens data = lit "SET" :: word :: t :: ts ->
  Map_get (store_after m data) word = Some (join (lit " ") (t :: ts)) /\
  reply (store_after m data) (GET_line word)
    = [lit "ANSWER " ++ join (lit " ") (t :: ts) ++ CRLF; separator] /\
  reply (store_after m (lit "SET foo   has   lots of   spaces"))
        (lit "GET foo")
    = [lit "ANSWER has lots of spaces" ++ CRLF; separator].
Proof.
  intros H; split; [|split].
  - rewrite (store_after_SET _ _ _ _ _ H); apply Map_get_set_same.
  - apply (reply_GET_after_SET m data _ word t ts [] H).
    apply tokens_GET_line.
    pose proof (tokens_tail _ _ _ H) as T; simpl in T.
    apply andb_true_iff in T; tauto.
  - apply (reply_GET_after_SET m _ _ (lit "foo") (lit "has")
             [lit "lots"; lit "of"; lit "spaces"] []); reflexivity.
Qed.

Lemma C4_description_normalized_witness :
  tokens (line (lit "SET foo   has   lots of   spaces"))
    = [lit "SET"; lit "foo"; lit "has"; lit "lots"; lit "of"; lit "spaces"] /\
  Map_get (store_after Map_new (line (lit "SET foo   has   lots of   spaces")))
          (lit "foo")
    = Some (lit "has lots of spaces").
Proof.
  split; [reflexivity|].
  apply (C4_description_normalized Map_new
           (line (lit "SET foo   has   lots of   spaces"))
           (lit "foo") (lit "has") [lit "lots"; lit "of"; lit "spaces"]
           eq_refl).
Defined.

(** C5. For every chunk that has a first token and whose first token is
    none of [GET], [SET], [CLEAR], [ALL], compared code unit by code unit,
    the reply is [ERROR Command not found.], then the separator, and the
    dictionary is left as it was. *)
Theorem C5_unknown_verb (m : Map) (data v : jsstring) (rest : list jsstring) :
  tokens data = v :: rest -> ~ In v verbs ->
  reply m data = [lit "ERROR Command not found." ++ CRLF; separator] /\
  store_after m data = m.
Proof.
  intros H NI; unfold reply, store_after.
  rewrite (dataHandler_other _ _ _ _ H NI); split; reflexivity.
Qed.

Lemma C5_unknown_verb_witness :
  tokens (line (lit "get foo")) = [lit "get"; lit "foo"] /\
  ~ In (lit "get") verbs /\
  reply [(lit "foo", lit "bar")] (line (lit "get foo"))
    = [lit "ERROR Command not found." ++ CRLF; separator] /\
  store_after [(lit "foo", lit "bar")] (line (lit "get foo"))
    = [(lit "foo", lit "bar")].
Proof.
  assert (NI : ~ In (lit "get") verbs).
  { simpl; intros [E|[E|[E|[E|[]]]]]; discriminate E. }
  split; [reflexivity | split; [exact NI |]].
  apply (C5_unknown_verb [(lit "foo", lit "bar")] (line (lit "get foo"))
           (lit "get") [lit "foo"] eq_refl NI).
Defined.

(** C6. The dictionary invariant (no entry with an empty key, with a key
    that has a whitespace character, or with an empty description) holds of
    every dictionary the server reaches from its initial one and, holding
    before a chunk is handled, holds after it, whatever the chunk; and after
    a chunk whose verb is [CLEAR] the dictionary is empty. *)
Theorem C6_store_invariant (history : list jsstring) (m : Map) (data : jsstring) :
  store_ok m = true ->
  store_ok (served history) = true /\
  store_ok (store_after m data) = true /\
  (forall rest : list jsstring,
     tokens data = lit "CLEAR" :: rest -> store_after m data = Map_new).
Proof.
  intros O; split; [apply served_ok | split].
  - apply store_after_ok, O.
  - intros rest C; apply (store_after_CLEAR _ _ _ C).
Qed.

Lemma C6_store_invariant_witness :
  store_ok [(lit "foo", lit "bar")] = true /\
  store_ok (store_after [(lit "foo", lit "bar")]
              (line (lit "SET  qux   a    b"))) = true.
Proof.
  split; [reflexivity|].
  apply (C6_store_invariant [] [(lit "foo", lit "bar")]
           (line (lit "SET  qux   a    b")) eq_refl).
Defined.

(** C7. For every chunk whose verb is neither [SET] nor [CLEAR] (a [GET], an
    [ALL], an unknown verb, or no verb at all when the chunk is empty or all
    whitespace) the dictionary after the call is the dictionary before it. *)
Theorem C7_read_only (w : World) (data : jsstring) :
  verb data <> Some (lit "SET") -> verb data <> Some (lit "CLEAR") ->
  responses (exec (dataHandler data) w) = responses w.
Proof. exact (responses_unchanged w data). Qed.

Lemma C7_read_only_witness :
  verb (line (lit "GET foo")) <> Some (lit "SET") /\
  verb (line (lit "GET foo")) <> Some (lit "CLEAR") /\
  responses (exec (dataHandler (line (lit "GET foo")))
               (accept [(lit "foo", lit "bar")] (lit "127.0.0.1") 50000))
    = [(lit "foo", lit "bar")].
Proof.
  assert (NS : verb (line (lit "GET foo")) <> Some (lit "SET"))
    by discriminate.
  assert (NC : verb (line (lit "GET foo")) <> Some (lit "CLEAR"))
    by discriminate.
  split; [exact NS | split; [exact NC |]].
  apply (C7_read_only
           (accept [(lit "foo", lit "bar")] (lit "127.0.0.1") 50000)
           (line (lit "GET foo")) NS NC).
Defined.

Lemma repeated_CLEAR (n : nat) (data : jsstring) (rest : list jsstring) (m : Map) :
  tokens data = lit "CLEAR" :: rest -> repeated (S n) data m = [].
Proof.
  intros H; revert m; induction n as [|n IH]; intros m.
  - apply (store_after_CLEAR _ _ _ H).
  - change (repeated (S (S n)) data m)
      with (repeated (S n) data (store_after m data)).
    apply IH.
Qed.

Lemma repeated_SET (n : nat) (data word t : jsstring) (ts : list jsstring)
    (m : Map) :
  tokens data = lit "SET" :: word :: t :: ts ->
  repeated (S n) data m = store_after m data.
Proof.
  intros H; revert m; induction n as [|n IH]; intros m; [reflexivity|].
  change (repeated (S (S n)) data m)
    with (repeated (S n) data (store_after m data)).
  rewrite IH, !(store_after_SET _ _ _ _ _ H); apply Map_set_twice.
Qed.

(** C8, as stated, fails: for the word [foo] and the description [a  b]
    (two spaces), both non-empty and [foo] free of whitespace, handling the
    line [SET foo a  b] once, or three times, leaves one entry for [foo],
    but mapped to [a b], with a single space, and not to [a  b]. *)
Lemma C8_counterexample :
  let w := lit "foo" in
  let d := lit "a  b" in
  (w <> [] /\ d <> [] /\ no_space w = true) /\
  entries_for (repeated 1 (SET_line w d) Map_new) w = [(w, lit "a b")] /\
  entries_for (repeated 1 (SET_line w d) Map_new) w <> [(w, d)] /\
  entries_for (repeated 3 (SET_line w d) Map_new) w <> [(w, d)].
Proof.
  cbv zeta; split; [|split; [|split]].
  - split; [discriminate | split; [discriminate | reflexivity]].
  - vm_compute; reflexivity.
  - vm_compute; discriminate.
  - vm_compute; discriminate.
Qed.

(** C8 (amended). Handling a [CLEAR] chunk once or more in succession
    leaves the dictionary empty; and for every word [w] that is not empty
    and has no whitespace and every description [d] with at least one
    character that is not whitespace, handling the same line [SET w d] once
    or more in succession leaves what handling it once leaves: a dictionary
    with exactly one entry for [w], mapped to the tokens of [d] joined by
    single spaces, which is [d] itself whenever [d] is already of that
    form. *)
Theorem C8_idempotence (m : Map) (n : nat) (cdata w d : jsstring)
    (crest : list jsstring) :
  Map_wf m ->
  tokens cdata = lit "CLEAR" :: crest ->
  is_token w = true -> tokens d <> [] ->
  repeated (S n) cdata m = [] /\
  repeated (S n) (SET_line w d) m = store_after m (SET_line w d) /\
  entries_for (repeated (S n) (SET_line w d) m) w
    = [(w, join (lit " ") (tokens d))] /\
  (join (lit " ") (tokens d) = d ->
   entries_for (repeated (S n) (SET_line w d) m) w = [(w, d)]).
Proof.
  intros Wf C W D.
  destruct (tokens d) as [|t ts] eqn:E; [congruence|].
  assert (HS : tokens (SET_line w d) = lit "SET" :: w :: t :: ts)
    by (rewrite (tokens_SET_line w d W), E; reflexivity).
  assert (R : entries_for (repeated (S n) (SET_line w d) m) w
              = [(w, join (lit " ") (t :: ts))]).
  { rewrite (repeated_SET n _ _ _ _ m HS), (store_after_SET _ _ _ _ _ HS).
    apply entries_for_set, Wf. }
  split; [apply (repeated_CLEAR n _ _ m C)|].
  split; [apply (repeated_SET n _ _ _ _ m HS)|].
  split; [exact R | intros J; rewrite J in R; exact R].
Qed.

Lemma C8_idempotence_witness :
  Map_wf [(lit "foo", lit "old"); (lit "qux", lit "other")] /\
  tokens (line (lit "CLEAR")) = [lit "CLEAR"] /\
  is_token (lit "foo") = true /\ tokens (lit "bar  baz") <> [] /\
  repeated 3 (line (lit "CLEAR"))
    [(lit "foo", lit "old"); (lit "qux", lit "other")] = [] /\
  entries_for
    (repeated 3 (SET_line (lit "foo") (lit "bar  baz"))
       [(lit "foo", lit "old"); (lit "qux", lit "other")])
    (lit "foo")
    = [(lit "foo", lit "bar baz")].
Proof.
  assert (W : Map_wf [(lit "foo", lit "old"); (lit "qux", lit "other")]).
  { unfold Map_wf; simpl; repeat constructor; simpl.
    - intros [E|[]]; discriminate E.
    - intros []. }
  assert (D : tokens (lit "bar  baz") <> []) by discriminate.
  split; [exact W | split; [reflexivity | split; [reflexivity |]]].
  split; [exact D|].
  pose proof (C8_idempotence
                [(lit "foo", lit "old"); (lit "qux", lit "other")] 2
                (line (lit "CLEAR")) (lit "foo") (lit "bar  baz") []
                W eq_refl eq_refl D)
    as [HC [_ [HS _]]].
  split; [exact HC | exact HS].
Defined.

(** C9. For every chunk with no token (empty, or whitespace only) delivered
    to an open session, what is written is [ERROR A command was expected.],
    the socket is not destroyed and the dictionary is untouched; the next
    chunk delivered to the session is handled by [#dataHandler] as any
    other. *)
Theorem C9_blank_line (w : World) (data : jsstring) :
  tokens data = [] -> destroyed (socket w) = false ->
  let w' := exec (deliver (EvData data)) w in
  written (socket w')
    = written (socket w) ++ [lit "ERROR A command was expected." ++ CRLF] /\
  destroyed (socket w') = false /\
  responses w' = responses w /\
  (forall next : jsstring,
     deliver (EvData next) w' = dataHandler next w').
Proof.
  intros H D w'.
  assert (E : w' = wrote w [lit "ERROR A command was expected." ++ CRLF]).
  { unfold w', exec, deliver; rewrite D.
    apply (dataHandler_blank data w H). }
  rewrite E; repeat split; simpl; try exact D.
  intros next; unfold deliver; simpl; rewrite D; reflexivity.
Qed.

Lemma C9_blank_line_witness :
  let w := accept [(lit "foo", lit "bar")] (lit "127.0.0.1") 50000 in
  let w' := exec (deliver (EvData CRLF)) w in
  tokens CRLF = [] /\ destroyed (socket w) = false /\
  written (socket w') = [lit "ERROR A command was expected." ++ CRLF] /\
  destroyed (socket w') = false /\
  responses w' = [(lit "foo", lit "bar")] /\
  written (socket (exec (deliver (EvData (GET_line (lit "foo")))) w'))
    = [lit "ERROR A command was expected." ++ CRLF;
       lit "ANSWER bar" ++ CRLF; separator].
Proof.
  cbv zeta.
  pose proof (C9_blank_line
                (accept [(lit "foo", lit "bar")] (lit "127.0.0.1") 50000)
                CRLF eq_refl eq_refl) as [HW [HD [HR HN]]].
  split; [reflexivity | split; [reflexivity |]].
  split; [exact HW | split; [exact HD | split; [exact HR |]]].
  unfold exec at 1; rewrite HN; reflexivity.
Defined.

(** C10. One call of [#dataHandler] treats its whole chunk as one command:
    every [\s] character, the carriage return and the line feed among them,
    only separates tokens, so the tokens of two [\r\n]-terminated lines in
    one chunk are the tokens of the first followed by those of the second;
    the chunk gets one response line; and when the first line is a
    well-formed [SET], the tokens of the second line are appended to the
    description that is stored. *)
Theorem C10_one_command_per_chunk (m : Map) (first second : jsstring) :
  (forall (a b : jsstring) (c : N),
     is_space c = true -> tokens (a ++ c :: b) = tokens a ++ tokens b) /\
  (is_space 13 = true /\ is_space 10 = true) /\
  tokens (line first ++ line second) = tokens first ++ tokens second /\
  (exists r : jsstring,
     reply m (line first ++ line second) = [r] \/
     reply m (line first ++ line second) = [r; separator]) /\
  (forall (word t : jsstring) (ts : list jsstring),
     tokens first = lit "SET" :: word :: t :: ts ->
     reply m (line first ++ line second)
       = [lit "ANSWER Word " ++ word ++ lit " has been set." ++ CRLF;
          separator] /\
     store_after m (line first ++ line second)
       = Map_set m word (join (lit " ") (t :: ts ++ tokens second))) /\
  (reply m (line (lit "SET foo bar") ++ line (lit "GET foo"))
     = [lit "ANSWER Word foo has been set." ++ CRLF; separator] /\
   store_after m (line (lit "SET foo bar") ++ line (lit "GET foo"))
     = Map_set m (lit "foo") (lit "bar GET foo")).
Proof.
  assert (T : forall a b, tokens (line a ++ line b) = tokens a ++ tokens b).
  { intros a b; unfold line at 1; rewrite <- app_assoc.
    rewrite tokens_app_CRLF, tokens_line; reflexivity. }
  assert (S : forall a b word t ts,
             tokens a = lit "SET" :: word :: t :: ts ->
             reply m (line a ++ line b)
               = [lit "ANSWER Word " ++ word ++ lit " has been set." ++ CRLF;
                  separator] /\
             store_after m (line a ++ line b)
               = Map_set m word (join (lit " ") (t :: ts ++ tokens b))).
  { intros a b word t ts H.
    assert (H' : tokens (line a ++ line b)
                 = lit "SET" :: word :: t :: (ts ++ tokens b))
      by (rewrite T, H; reflexivity).
    unfold reply, store_after; rewrite (dataHandler_SET _ _ _ _ _ H').
    split; reflexivity. }
  split; [intros a b c Hc; apply tokens_app_space, Hc|].
  split; [split; reflexivity|].
  split; [apply T|].
  split.
  - destruct (reply_shape m (line first ++ line second)) as [r [_ R]].
    exists r; destruct (tokens (line first ++ line second)); auto.
  - split; [apply S|].
    apply (S (lit "SET foo bar") (lit "GET foo") (lit "foo") (lit "bar") []).
    reflexivity.
Qed.

(** ** Further properties of the handlers *)

(** A call changes the world it runs in by what [store_after] and [reply]
    say: the socket it writes to has no part in what is written or stored. *)
Lemma dataHandler_effect (w : World) (data : jsstring) :
  exec (dataHandler data) w =
    wrote (with_responses w (store_after (responses w) data))
          (reply (responses w) data).
Proof.
  unfold store_after, reply.
  destruct (tokens data) as [|v rest] eqn:H.
  - rewrite !(dataHandler_blank _ _ H); destruct w; reflexivity.
  - destruct (in_dec (list_eq_dec N.eq_dec) v verbs) as [I|NI].
    + simpl in I; destruct I as [<-|[<-|[<-|[<-|[]]]]].
      * destruct rest as [|word rest].
        -- rewrite !(dataHandler_GET_alone _ _ H); destruct w; reflexivity.
        -- rewrite !(dataHandler_GET _ _ _ _ H); destruct w; reflexivity.
      * destruct rest as [|word [|t ts]].
        -- rewrite !(dataHandler_SET_short _ _ _ H) by (simpl; lia).
           destruct w; reflexivity.
        -- rewrite !(dataHandler_SET_short _ _ _ H) by (simpl; lia).
           destruct w; reflexivity.
        -- rewrite !(dataHandler_SET _ _ _ _ _ H); reflexivity.
      * rewrite !(dataHandler_CLEAR _ _ _ H); reflexivity.
      * rewrite !(dataHandler_ALL _ _ _ H); destruct w; reflexivity.
    + rewrite !(dataHandler_other _ _ _ _ H NI); destruct w; reflexivity.
Qed.

Lemma Map_set_set (m : Map) (k v1 v2 : jsstring) :
  Map_set (Map_set m k v1) k v2 = Map_set m k v2.
Proof.
  induction m as [|[k' v'] m IH]; simpl.
  - rewrite str_eqb_refl; reflexivity.
  - destruct (str_eqb k' k) eqn:E; simpl; rewrite E; congruence.
Qed.

Lemma existsb_key_In (k : jsstring) (ks : list jsstring) :
  existsb (fun k' => str_eqb k' k) ks = true <-> In k ks.
Proof.
  rewrite existsb_exists; split.
  - intros [x [I E]]; apply str_eqb_eq in E; subst; exact I.
  - intros I; exists k; split; [exact I | apply str_eqb_refl].
Qed.

(** A key of the dictionary is bound by it. *)
Lemma Map_get_In (m : Map) (k : jsstring) :
  In k (Map_keys m) <-> exists v, Map_get m k = Some v.
Proof.
  induction m as [|[k' v'] m IH]; simpl.
  - split; [intros [] | intros [v E]; discriminate E].
  - destruct (str_eqb k' k) eqn:E.
    + apply str_eqb_eq in E; subst k'; split; eauto.
    + rewrite <- IH; split; [intros [->|I] | tauto]; [|exact I].
      rewrite str_eqb_refl in E; discriminate E.
Qed.

(** In a dictionary that satisfies the invariant a description is truthy. *)
Lemma Map_get_truthy (m : Map) (k d : jsstring) :
  store_ok m = true -> Map_get m k = Some d -> truthy d = true.
Proof.
  induction m as [|[k' v'] m IH]; simpl; intros O G; [discriminate G|].
  apply andb_true_iff in O as [O1 O2].
  destruct (str_eqb k' k).
  - injection G as <-; unfold entry_ok in O1; simpl in O1.
    apply andb_true_iff in O1; tauto.
  - apply (IH O2 G).
Qed.

(** X1. On every dictionary the server can hold, a chunk whose tokens start
    with [GET] and a word is answered with the description stored under the
    word, or with [ERROR Could not find the specified word.] when the word
    has no entry; tokens after the word play no part, and the dictionary is
    left as it was. *)
Theorem X1_get_answers_what_is_stored (history : list jsstring)
    (data word : jsstring) (rest : list jsstring) :
  tokens data = lit "GET" :: word :: rest ->
  reply (served history) data =
    [match Map_get (served history) word with
     | Some desc => lit "ANSWER " ++ desc ++ CRLF
     | None => lit "ERROR Could not find the specified word." ++ CRLF
     end; separator] /\
  store_after (served history) data = served history.
Proof.
  intros H; split.
  - unfold reply; rewrite (dataHandler_GET _ _ _ _ H); simpl.
    destruct (Map_get (served history) word) as [desc|] eqn:G; [|reflexivity].
    pose proof (Map_get_truthy _ _ _ (served_ok history) G) as T.
    destruct desc; [discriminate T | reflexivity].
  - apply store_after_unchanged; unfold verb; rewrite H; discriminate.
Qed.

Lemma X1_get_answers_what_is_stored_witness :
  tokens (line (lit "GET qux and more")) =
    [lit "GET"; lit "qux"; lit "and"; lit "more"] /\
  reply (served [SET_line (lit "foo") (lit "bar")])
        (line (lit "GET qux and more"))
    = [lit "ERROR Could not find the specified word." ++ CRLF; separator].
Proof.
  split; [reflexivity|].
  apply (X1_get_answers_what_is_stored [SET_line (lit "foo") (lit "bar")]
           (line (lit "GET qux and more")) (lit "qux")
           [lit "and"; lit "more"] eq_refl).
Defined.

(** X2. A [GET] with no word, a [SET] with no word and a [SET] with a word
    but no description are answered with the format error of their verb,
    then the separator, and leave the dictionary as it was. *)
Theorem X2_missing_arguments (m : Map) (data : jsstring) (rest : list jsstring) :
  (List.length rest <= 1)%nat ->
  (tokens data = [lit "GET"] ->
   reply m data =
     [lit "ERROR Expected format is: GET <word>." ++ CRLF; separator] /\
   store_after m data = m) /\
  (tokens data = lit "SET" :: rest ->
   reply m data =
     [lit "ERROR Expected format is: SET <word> <desc>" ++ CRLF; separator] /\
   store_after m data = m).
Proof.
  intros L; split; intros H; unfold reply, store_after.
  - rewrite (dataHandler_GET_alone _ _ H); split; reflexivity.
  - rewrite (dataHandler_SET_short _ _ _ H L); split; reflexivity.
Qed.

Lemma X2_missing_arguments_witness :
  (List.length [lit "foo"] <= 1)%nat /\
  tokens (line (lit "SET foo  ")) = [lit "SET"; lit "foo"] /\
  reply [(lit "foo", lit "bar")] (line (lit "SET foo  "))
    = [lit "ERROR Expected format is: SET <word> <desc>" ++ CRLF; separator] /\
  store_after [(lit "foo", lit "bar")] (line (lit "SET foo  "))
    = [(lit "foo", lit "bar")].
Proof.
  assert (L : (List.length [lit "foo"] <= 1)%nat) by (simpl; lia).
  split; [exact L | split; [reflexivity |]].
  apply (X2_missing_arguments [(lit "foo", lit "bar")]
           (line (lit "SET foo  ")) [lit "foo"] L).
  reflexivity.
Defined.

(** X3. Tokens that a verb does not use are ignored: a chunk whose first
    token is [CLEAR] or [ALL] is handled as the line of that verb alone, and
    a chunk that starts with [GET] and a word as the line [GET word],
    whatever follows. *)
Theorem X3_extra_arguments_ignored (w : World) (data v : jsstring)
    (rest : list jsstring) :
  tokens data = v :: rest ->
  (v = lit "CLEAR" \/ v = lit "ALL" ->
   exec (dataHandler data) w = exec (dataHandler (line v)) w) /\
  (forall (word : jsstring) (rest' : list jsstring),
     v = lit "GET" -> rest = word :: rest' ->
     exec (dataHandler data) w = exec (dataHandler (GET_line word)) w).
Proof.
  intros H; split.
  - intros [->| ->].
    + rewrite (dataHandler_CLEAR _ _ _ H).
      rewrite (dataHandler_CLEAR (line (lit "CLEAR")) [] w eq_refl).
      reflexivity.
    + rewrite (dataHandler_ALL _ _ _ H).
      rewrite (dataHandler_ALL (line (lit "ALL")) [] w eq_refl).
      reflexivity.
  - intros word rest' -> ->.
    pose proof (tokens_tail _ _ _ H) as T; simpl in T.
    apply andb_true_iff in T as [T _].
    rewrite (dataHandler_GET _ _ _ _ H).
    rewrite (dataHandler_GET _ _ _ _ (tokens_GET_line word T)).
    reflexivity.
Qed.

Lemma X3_extra_arguments_ignored_witness :
  tokens (line (lit "CLEAR everything now")) =
    [lit "CLEAR"; lit "everything"; lit "now"] /\
  exec (dataHandler (line (lit "CLEAR everything now")))
       (accept [(lit "foo", lit "bar")] (lit "127.0.0.1") 50000)
    = exec (dataHandler (line (lit "CLEAR")))
        (accept [(lit "foo", lit "bar")] (lit "127.0.0.1") 50000).
Proof.
  split; [reflexivity|].
  apply (X3_extra_arguments_ignored
           (accept [(lit "foo", lit "bar")] (lit "127.0.0.1") 50000)
           (line (lit "CLEAR everything now")) (lit "CLEAR")
           [lit "everything"; lit "now"] eq_refl).
  left; reflexivity.
Defined.

(** X4. The last [SET] of a word wins: after two well-formed [SET] chunks
    for one word, the dictionary is the one that the second chunk alone
    would have left, a [GET] of the word answers with the second
    description, and the list of words is the one left by the first. *)
Theorem X4_set_overwrites (m : Map) (data1 data2 gdata word t1 t2 : jsstring)
    (ts1 ts2 rest : list jsstring) :
  tokens data1 = lit "SET" :: word :: t1 :: ts1 ->
  tokens data2 = lit "SET" :: word :: t2 :: ts2 ->
  tokens gdata = lit "GET" :: word :: rest ->
  store_after (store_after m data1) data2 = store_after m data2 /\
  reply (store_after (store_after m data1) data2) gdata
    = [lit "ANSWER " ++ join (lit " ") (t2 :: ts2) ++ CRLF; separator] /\
  Map_keys (store_after (store_after m data1) data2)
    = Map_keys (store_after m data1).
Proof.
  intros H1 H2 HG; split; [|split].
  - rewrite (store_after_SET _ _ _ _ _ H2), (store_after_SET _ _ _ _ _ H1).
    rewrite (store_after_SET _ _ _ _ _ H2); apply Map_set_set.
  - apply (reply_GET_after_SET _ _ _ _ _ _ _ H2 HG).
  - rewrite (store_after_SET _ _ _ _ _ H2), Map_set_keys.
    rewrite (store_after_SET _ _ _ _ _ H1).
    assert (I : In word (Map_keys (Map_set m word (join (lit " ") (t1 :: ts1))))).
    { apply (proj2 (Map_get_In _ _)); eexists; apply Map_get_set_same. }
    apply existsb_key_In in I; rewrite I; reflexivity.
Qed.

Lemma X4_set_overwrites_witness :
  tokens (SET_line (lit "foo") (lit "first")) = [lit "SET"; lit "foo"; lit "first"] /\
  tokens (SET_line (lit "foo") (lit "second one"))
    = [lit "SET"; lit "foo"; lit "second"; lit "one"] /\
  tokens (GET_line (lit "foo")) = [lit "GET"; lit "foo"] /\
  reply (store_after (store_after [(lit "qux", lit "a")]
                        (SET_line (lit "foo") (lit "first")))
           (SET_line (lit "foo") (lit "second one")))
        (GET_line (lit "foo"))
    = [lit "ANSWER second one" ++ CRLF; separator].
Proof.
  split; [reflexivity | split; [reflexivity | split; [reflexivity |]]].
  apply (X4_set_overwrites [(lit "qux", lit "a")]
           (SET_line (lit "foo") (lit "first"))
           (SET_line (lit "foo") (lit "second one"))
           (GET_line (lit "foo")) (lit "foo") (lit "first") (lit "second")
           [] [lit "one"] [] eq_refl eq_refl eq_refl).
Defined.

(** X5. A well-formed [SET] of one word changes the answer to no [GET] of
    another word: words are compared code unit by code unit, so words that
    differ in case are different words. *)
Theorem X5_set_leaves_other_words (m : Map) (sdata gdata word other t : jsstring)
    (ts rest : list jsstring) :
  tokens sdata = lit "SET" :: word :: t :: ts ->
  tokens gdata = lit "GET" :: other :: rest ->
  other <> word ->
  reply (store_after m sdata) gdata = reply m gdata.
Proof.
  intros HS HG N; unfold reply.
  rewrite !(dataHandler_GET _ _ _ _ HG); simpl.
  rewrite (store_after_SET _ _ _ _ _ HS), (Map_get_set_other _ _ _ _ N).
  reflexivity.
Qed.

Lemma X5_set_leaves_other_words_witness :
  tokens (SET_line (lit "Foo") (lit "new")) = [lit "SET"; lit "Foo"; lit "new"] /\
  tokens (GET_line (lit "foo")) = [lit "GET"; lit "foo"] /\
  lit "foo" <> lit "Foo" /\
  reply (store_after [(lit "foo", lit "old")] (SET_line (lit "Foo") (lit "new")))
        (GET_line (lit "foo"))
    = [lit "ANSWER old" ++ CRLF; separator].
Proof.
  assert (N : lit "foo" <> lit "Foo") by discriminate.
  split; [reflexivity | split; [reflexivity | split; [exact N |]]].
  apply (X5_set_leaves_other_words [(lit "foo", lit "old")]
           (SET_line (lit "Foo") (lit "new")) (GET_line (lit "foo"))
           (lit "Foo") (lit "foo") (lit "new") [] [] eq_refl eq_refl N).
Defined.

(** X6. The words of the dictionary are kept in the order of their first
    [SET]: a well-formed [SET] of a word the dictionary has leaves the list
    of words as it is, a [SET] of a new word puts it last; and no dictionary
    the server can hold lists a word twice. *)
Theorem X6_words_in_insertion_order (history : list jsstring)
    (data word t : jsstring) (ts : list jsstring) :
  tokens data = lit "SET" :: word :: t :: ts ->
  (In word (Map_keys (served history)) ->
   Map_keys (store_after (served history) data) = Map_keys (served history)) /\
  (~ In word (Map_keys (served history)) ->
   Map_keys (store_after (served history) data)
     = Map_keys (served history) ++ [word]) /\
  NoDup (Map_keys (store_after (served history) data)).
Proof.
  intros H; rewrite (store_after_SET _ _ _ _ _ H).
  split; [|split].
  - intros I; rewrite Map_set_keys.
    apply existsb_key_In in I; rewrite I; reflexivity.
  - intros NI; rewrite Map_set_keys.
    destruct (existsb _ (Map_keys (served history))) eqn:E; [|reflexivity].
    apply existsb_key_In in E; contradiction.
  - apply Map_set_wf, served_wf.
Qed.

Lemma X6_words_in_insertion_order_witness :
  tokens (SET_line (lit "foo") (lit "again")) = [lit "SET"; lit "foo"; lit "again"] /\
  Map_keys (store_after (served [SET_line (lit "foo") (lit "bar");
                                 SET_line (lit "qux") (lit "a b")])
                        (SET_line (lit "foo") (lit "again")))
    = [lit "foo"; lit "qux"].
Proof.
  split; [reflexivity|].
  pose proof (X6_words_in_insertion_order
                [SET_line (lit "foo") (lit "bar");
                 SET_line (lit "qux") (lit "a b")]
                (SET_line (lit "foo") (lit "again"))
                (lit "foo") (lit "again") [] eq_refl) as [HI _].
  apply HI; left; reflexivity.
Defined.

(** X7. Whatever the chunk and the dictionary, the first chunk written in
    reply begins with [ANSWER ] or with [ERROR ]; the separator is written
    after it exactly when the chunk has a token, and nothing else is
    written; and a reply that begins with [ERROR ] goes with a dictionary
    left as it was. *)
Theorem X7_one_response_errors_change_nothing (m : Map) (data : jsstring) :
  exists r : jsstring,
    reply m data = match tokens data with [] => [r] | _ :: _ => [r; separator] end /\
    (starts_with (lit "ANSWER ") r || starts_with (lit "ERROR ") r) = true /\
    (starts_with (lit "ERROR ") r = true -> store_after m data = m).
Proof.
  unfold reply, store_after.
  destruct (tokens data) as [|v rest] eqn:H.
  - rewrite (dataHandler_blank _ _ H); eexists; repeat split.
  - destruct (in_dec (list_eq_dec N.eq_dec) v verbs) as [I|NI].
    + simpl in I; destruct I as [<-|[<-|[<-|[<-|[]]]]].
      * destruct rest as [|word rest].
        -- rewrite (dataHandler_GET_alone _ _ H); eexists; repeat split.
        -- rewrite (dataHandler_GET _ _ _ _ H); eexists.
           split; [reflexivity|]; split; [|reflexivity].
           simpl; destruct (Map_get m word) as [[|c desc]|]; reflexivity.
      * destruct rest as [|word [|t ts]].
        -- rewrite (dataHandler_SET_short _ _ _ H) by (simpl; lia).
           eexists; repeat split.
        -- rewrite (dataHandler_SET_short _ _ _ H) by (simpl; lia).
           eexists; repeat split.
        -- rewrite (dataHandler_SET _ _ _ _ _ H); eexists.
           split; [reflexivity|]; split; [reflexivity|].
           intros E; discriminate E.
      * rewrite (dataHandler_CLEAR _ _ _ H); eexists.
        split; [reflexivity|]; split; [reflexivity|].
        intros E; discriminate E.
      * rewrite (dataHandler_ALL _ _ _ H); eexists.
        split; [reflexivity|]; split; [|reflexivity].
        simpl; destruct (join (lit ", ") (Map_keys m)); reflexivity.
    + rewrite (dataHandler_other _ _ _ _ H NI); eexists; repeat split.
Qed.

(** ** Lines, whitespace and normal forms *)

Lemma one_line_app (a b : jsstring) :
  one_line (a ++ b) = one_line a && one_line b.
Proof. apply forallb_app. Qed.

Lemma no_space_one_line (s : jsstring) :
  no_space s = true -> one_line s = true.
Proof.
  unfold no_space, one_line; rewrite !forallb_forall.
  intros H c I; specialize (H c I).
  unfold non_space in H; apply negb_true_iff in H.
  destruct (c =? 13) eqn:E13; [apply N.eqb_eq in E13; subst; discriminate H|].
  destruct (c =? 10) eqn:E10; [apply N.eqb_eq in E10; subst; discriminate H|].
  reflexivity.
Qed.

Lemma one_line_join (sep : jsstring) (ts : list jsstring) :
  one_line sep = true -> forallb one_line ts = true ->
  one_line (join sep ts) = true.
Proof.
  intros S; induction ts as [|t ts IH]; intros H; [reflexivity|].
  simpl in H; apply andb_true_iff in H as [Ht Hts].
  destruct ts as [|t' ts]; [exact Ht|].
  change (join sep (t :: t' :: ts)) with (t ++ sep ++ join sep (t' :: ts)).
  rewrite !one_line_app, Ht, S, (IH Hts); reflexivity.
Qed.

Lemma tokens_one_line (ts : list jsstring) :
  forallb is_token ts = true -> forallb one_line ts = true.
Proof.
  rewrite !forallb_forall; intros H t I.
  apply no_space_one_line, is_token_no_space, H, I.
Qed.

Lemma normalized_join (ts : list jsstring) :
  forallb is_token ts = true -> normalized (join (lit " ") ts) = true.
Proof.
  intros H; unfold normalized; rewrite (tokens_join ts H); apply str_eqb_refl.
Qed.

Lemma normalized_one_line (d : jsstring) :
  normalized d = true -> one_line d = true.
Proof.
  unfold normalized; intros E; apply str_eqb_eq in E; rewrite <- E.
  apply one_line_join; [reflexivity|].
  apply tokens_one_line, tokens_are_tokens.
Qed.

Lemma tokens_all_space (s : jsstring) : all_space s = true -> tokens s = [].
Proof.
  induction s as [|c s IH]; [reflexivity|]; simpl; intros H.
  apply andb_true_iff in H as [Hc Hs].
  rewrite (tokens_cons_space c s Hc); apply IH, Hs.
Qed.

Lemma tokens_space_prefix (pre s : jsstring) :
  all_space pre = true -> tokens (pre ++ s) = tokens s.
Proof.
  induction pre as [|c pre IH]; [reflexivity|]; simpl; intros H.
  apply andb_true_iff in H as [Hc Hs].
  rewrite (tokens_cons_space c _ Hc); apply IH, Hs.
Qed.

Lemma tokens_space_suffix (s post : jsstring) :
  all_space post = true -> tokens (s ++ post) = tokens s.
Proof.
  destruct post as [|c post]; [rewrite app_nil_r; reflexivity|].
  simpl; intros H; apply andb_true_iff in H as [Hc Hs].
  rewrite (tokens_app_space s c post Hc), (tokens_all_space post Hs).
  apply app_nil_r.
Qed.

(** The tokens of a scan, put end to end, are the current match and the
    characters outside [\s] that were still to read. *)
Lemma concat_scan (s cur : jsstring) :
  List.concat (scan cur s) = cur ++ filter non_space s.
Proof.
  assert (F : forall cur, List.concat (flush cur) = cur)
    by (intros [|c cur']; simpl; [|rewrite app_nil_r]; reflexivity).
  revert cur; induction s as [|c s IH]; intros cur; simpl.
  - rewrite F, app_nil_r; reflexivity.
  - unfold non_space at 1; destruct (is_space c); simpl.
    + rewrite concat_app, F, IH; reflexivity.
    + rewrite IH, <- app_assoc; reflexivity.
Qed.

Lemma Map_set_normalized (m : Map) (k v : jsstring) :
  store_normalized m = true -> normalized v = true ->
  store_normalized (Map_set m k v) = true.
Proof.
  intros O V; induction m as [|[k' v'] m IH]; simpl.
  - rewrite V; reflexivity.
  - simpl in O; apply andb_true_iff in O as [O1 O2].
    destruct (str_eqb k' k); simpl.
    + rewrite V, O2; reflexivity.
    + rewrite O1, (IH O2); reflexivity.
Qed.

Lemma store_after_normalized (m : Map) (data : jsstring) :
  store_normalized m = true -> store_normalized (store_after m data) = true.
Proof.
  intros O.
  destruct (list_eq_dec N.eq_dec (hd [] (tokens data)) (lit "SET")) as [S|NS].
  - destruct (tokens data) as [|v [|word [|t ts]]] eqn:H;
      [discriminate S | simpl in S; subst v ..].
    + rewrite (store_after_SET_short _ _ _ H); [exact O | simpl; lia].
    + rewrite (store_after_SET_short _ _ _ H); [exact O | simpl; lia].
    + rewrite (store_after_SET _ _ _ _ _ H).
      pose proof (tokens_tail _ _ _ H) as T.
      simpl in T; apply andb_true_iff in T as [_ T].
      apply Map_set_normalized; [exact O | apply normalized_join, T].
  - destruct (list_eq_dec N.eq_dec (hd [] (tokens data)) (lit "CLEAR"))
      as [C|NC].
    + destruct (tokens data) as [|v rest] eqn:H; [discriminate C|].
      simpl in C; subst v.
      rewrite (store_after_CLEAR _ _ _ H); reflexivity.
    + rewrite store_after_unchanged; [exact O | |];
        unfold verb; destruct (tokens data); simpl in *; congruence.
Qed.

Lemma served_normalized (history : list jsstring) :
  store_normalized (served history) = true.
Proof.
  induction history as [|data history IH] using rev_ind; [reflexivity|].
  rewrite served_snoc; apply store_after_normalized, IH.
Qed.

Lemma Map_get_normalized (m : Map) (k d : jsstring) :
  store_normalized m = true -> Map_get m k = Some d -> normalized d = true.
Proof.
  induction m as [|[k' v'] m IH]; simpl; intros O G; [discriminate G|].
  apply andb_true_iff in O as [O1 O2].
  destruct (str_eqb k' k); [injection G as <-; exact O1 | apply (IH O2 G)].
Qed.

Lemma Map_get_key_token (m : Map) (k d : jsstring) :
  store_ok m = true -> Map_get m k = Some d -> is_token k = true.
Proof.
  induction m as [|[k' v'] m IH]; simpl; intros O G; [discriminate G|].
  apply andb_true_iff in O as [O1 O2].
  destruct (str_eqb k' k) eqn:E; [|apply (IH O2 G)].
  apply str_eqb_eq in E; subst k'.
  unfold entry_ok in O1; apply andb_true_iff in O1; tauto.
Qed.

Lemma Map_set_get (m : Map) (k v : jsstring) :
  Map_get m k = Some v -> Map_set m k v = m.
Proof.
  induction m as [|[k' v'] m IH]; simpl; intros G; [discriminate G|].
  destruct (str_eqb k' k); [injection G as <-; reflexivity|].
  rewrite (IH G); reflexivity.
Qed.

Lemma keys_tokens (m : Map) :
  store_ok m = true -> forallb is_token (Map_keys m) = true.
Proof.
  induction m as [|[k v] m IH]; [reflexivity|]; simpl; intros O.
  apply andb_true_iff in O as [O1 O2].
  unfold entry_ok in O1; simpl in O1; apply andb_true_iff in O1 as [O1 _].
  rewrite O1; apply (IH O2).
Qed.

Lemma line_of_body (body : jsstring) :
  one_line body = true ->
  exists b : jsstring, body ++ CRLF = b ++ CRLF /\ one_line b = true.
Proof. intros H; exists body; split; [reflexivity | exact H]. Qed.

Lemma line_of_two (a d : jsstring) :
  one_line a = true -> one_line d = true ->
  exists b : jsstring, a ++ d ++ CRLF = b ++ CRLF /\ one_line b = true.
Proof.
  intros A D; exists (a ++ d); split; [apply app_assoc|].
  rewrite one_line_app, A, D; reflexivity.
Qed.

Lemma line_of_three (a d z : jsstring) :
  one_line a = true -> one_line d = true -> one_line z = true ->
  exists b : jsstring, a ++ d ++ z ++ CRLF = b ++ CRLF /\ one_line b = true.
Proof.
  intros A D Z; exists (a ++ d ++ z); split.
  - rewrite <- !app_assoc; reflexivity.
  - rewrite !one_line_app, A, D, Z; reflexivity.
Qed.

(** Shows what was written on the socket of [accept], literals kept. *)
Ltac shown :=
  unfold wrote, with_responses, accept;
  cbn [written socket responses app].

(** X8. On every dictionary the server can hold and for every chunk, each
    chunk written in reply is one line: some text without carriage return
    or line feed, then [\r\n]. No stored word or description can break a
    reply in two. *)
Theorem X8_replies_are_single_lines (history : list jsstring)
    (data chunk : jsstring) :
  In chunk (reply (served history) data) ->
  exists body : jsstring, chunk = body ++ CRLF /\ one_line body = true.
Proof.
  pose proof (served_ok history) as O.
  pose proof (served_normalized history) as Nm.
  assert (Sep : exists b, separator = b ++ CRLF /\ one_line b = true)
    by (apply line_of_body; reflexivity).
  unfold reply.
  destruct (tokens data) as [|v rest] eqn:H.
  - rewrite (dataHandler_blank _ _ H); shown.
    intros [<-|[]]; apply line_of_body; reflexivity.
  - destruct (in_dec (list_eq_dec N.eq_dec) v verbs) as [I|NI].
    + simpl in I; destruct I as [<-|[<-|[<-|[<-|[]]]]].
      * destruct rest as [|word rest].
        -- rewrite (dataHandler_GET_alone _ _ H); shown.
           intros [<-|[<-|[]]]; [apply line_of_body; reflexivity | exact Sep].
        -- rewrite (dataHandler_GET _ _ _ _ H); shown.
           intros [<-|[<-|[]]]; [|exact Sep].
           destruct (Map_get (served history) word) as [[|c desc]|] eqn:G;
             try (apply line_of_body; reflexivity).
           apply (line_of_two (lit "ANSWER ") (c :: desc)); [reflexivity|].
           apply normalized_one_line, (Map_get_normalized _ _ _ Nm G).
      * destruct rest as [|word [|t ts]].
        -- rewrite (dataHandler_SET_short _ _ _ H) by (simpl; lia); shown.
           intros [<-|[<-|[]]]; [apply line_of_body; reflexivity | exact Sep].
        -- rewrite (dataHandler_SET_short _ _ _ H) by (simpl; lia); shown.
           intros [<-|[<-|[]]]; [apply line_of_body; reflexivity | exact Sep].
        -- rewrite (dataHandler_SET _ _ _ _ _ H); shown.
           intros [<-|[<-|[]]]; [|exact Sep].
           pose proof (tokens_tail _ _ _ H) as T; simpl in T.
           apply andb_true_iff in T as [T _].
           apply line_of_three; [reflexivity | | reflexivity].
           apply no_space_one_line, is_token_no_space, T.
      * rewrite (dataHandler_CLEAR _ _ _ H); shown.
        intros [<-|[<-|[]]]; [apply line_of_body; reflexivity | exact Sep].
      * rewrite (dataHandler_ALL _ _ _ H); shown.
        intros [<-|[<-|[]]]; [|exact Sep].
        destruct (join (lit ", ") (Map_keys (served history)))
          as [|c words] eqn:J; [apply line_of_body; reflexivity|].
        apply (line_of_three (lit "ANSWER Available words: ") (c :: words)
                 (lit ".")); [reflexivity | | reflexivity].
        rewrite <- J; apply one_line_join; [reflexivity|].
        apply tokens_one_line, keys_tokens, O.
    + rewrite (dataHandler_other _ _ _ _ H NI); shown.
      intros [<-|[<-|[]]]; [apply line_of_body; reflexivity | exact Sep].
Qed.

Lemma X8_replies_are_single_lines_witness :
  In (lit "ANSWER a b" ++ CRLF)
     (reply (served [lit "SET foo a" ++ CRLF ++ lit "b" ++ CRLF])
            (GET_line (lit "foo"))) /\
  exists body : jsstring,
    lit "ANSWER a b" ++ CRLF = body ++ CRLF /\ one_line body = true.
Proof.
  assert (I : In (lit "ANSWER a b" ++ CRLF)
                (reply (served [lit "SET foo a" ++ CRLF ++ lit "b" ++ CRLF])
                       (GET_line (lit "foo"))))
    by (left; reflexivity).
  split; [exact I|].
  apply (X8_replies_are_single_lines
           [lit "SET foo a" ++ CRLF ++ lit "b" ++ CRLF]
           (GET_line (lit "foo")) (lit "ANSWER a b" ++ CRLF) I).
Defined.

(** X9. In every dictionary the server can hold, a stored description is in
    normal form (its tokens joined by single spaces give it back) and its
    word is a token, so sending the entry back as the line [SET word desc]
    leaves the dictionary exactly as it was. *)
Theorem X9_stored_entries_set_back (history : list jsstring)
    (word desc : jsstring) :
  Map_get (served history) word = Some desc ->
  join (lit " ") (tokens desc) = desc /\
  is_token word = true /\
  store_after (served history) (SET_line word desc) = served history.
Proof.
  intros G.
  pose proof (Map_get_normalized _ _ _ (served_normalized history) G) as Nd.
  pose proof (Map_get_key_token _ _ _ (served_ok history) G) as Tw.
  pose proof (Map_get_truthy _ _ _ (served_ok history) G) as Td.
  apply str_eqb_eq in Nd.
  split; [exact Nd | split; [exact Tw |]].
  destruct (tokens desc) as [|t ts] eqn:E.
  - simpl in Nd; subst desc; discriminate Td.
  - rewrite (store_after_SET _ (SET_line word desc) word t ts).
    + rewrite Nd; apply Map_set_get, G.
    + rewrite (tokens_SET_line word desc Tw), E; reflexivity.
Qed.

Lemma X9_stored_entries_set_back_witness :
  Map_get (served [lit "SET  foo   a    b "]) (lit "foo") = Some (lit "a b") /\
  store_after (served [lit "SET  foo   a    b "]) (SET_line (lit "foo") (lit "a b"))
    = served [lit "SET  foo   a    b "].
Proof.
  assert (G : Map_get (served [lit "SET  foo   a    b "]) (lit "foo")
              = Some (lit "a b")) by reflexivity.
  split; [exact G|].
  apply (X9_stored_entries_set_back [lit "SET  foo   a    b "]
           (lit "foo") (lit "a b") G).
Defined.

(** X10. Whitespace before and after the text of a chunk, the line
    terminator included, has no effect: the chunk is handled exactly as the
    text alone, so a command needs no [\r\n] and may carry any [\s]
    characters around it. *)
Theorem X10_surrounding_whitespace_ignored (pre text post : jsstring) (w : World) :
  all_space pre = true -> all_space post = true ->
  dataHandler (pre ++ text ++ post) w = dataHandler text w.
Proof.
  intros Hpre Hpost; unfold dataHandler.
  rewrite !match_non_space_tokens.
  rewrite (tokens_space_prefix pre _ Hpre), (tokens_space_suffix text _ Hpost).
  reflexivity.
Qed.

Lemma X10_surrounding_whitespace_ignored_witness :
  all_space [9; 32] = true /\ all_space [32; 10] = true /\
  dataHandler ([9; 32] ++ lit "GET foo" ++ [32; 10])
              (accept [(lit "foo", lit "bar")] (lit "127.0.0.1") 50000)
    = dataHandler (lit "GET foo")
        (accept [(lit "foo", lit "bar")] (lit "127.0.0.1") 50000).
Proof.
  split; [reflexivity | split; [reflexivity |]].
  apply (X10_surrounding_whitespace_ignored [9; 32] (lit "GET foo") [32; 10]
           (accept [(lit "foo", lit "bar")] (lit "127.0.0.1") 50000)
           eq_refl eq_refl).
Defined.

(** X11. The match of line 142 loses nothing but whitespace: the tokens,
    put end to end, are the characters of the chunk that are not in [\s],
    in their order; every token is non-empty and free of [\s]; and there is
    no token at all (the match is [null]) exactly when every character of
    the chunk is in [\s]. *)
Theorem X11_match_keeps_non_space (s : jsstring) :
  List.concat (tokens s) = filter non_space s /\
  forallb is_token (tokens s) = true /\
  (match_non_space s = None <-> all_space s = true).
Proof.
  split; [apply (concat_scan s []) | split; [apply tokens_are_tokens |]].
  rewrite match_non_space_tokens; split.
  - intros E.
    assert (T : tokens s = []) by (destruct (tokens s); [reflexivity | discriminate E]).
    pose proof (concat_scan s []) as C; fold (tokens s) in C.
    rewrite T in C; simpl in C.
    unfold all_space; apply forallb_forall; intros c I.
    destruct (is_space c) eqn:Ec; [reflexivity|].
    assert (F : In c (filter non_space s)).
    { apply filter_In; split; [exact I|]. unfold non_space; rewrite Ec; reflexivity. }
    rewrite <- C in F; destruct F.
  - intros A; rewrite (tokens_all_space s A); reflexivity.
Qed.

Lemma Map_set_length (m : Map) (k v : jsstring) :
  (List.length (Map_set m k v) <= S (List.length m))%nat.
Proof.
  induction m as [|[k' v'] m IH]; simpl; [lia|].
  destruct (str_eqb k' k); simpl; lia.
Qed.

Lemma Map_set_keeps_keys (m : Map) (k v k0 : jsstring) :
  In k0 (Map_keys m) -> In k0 (Map_keys (Map_set m k v)).
Proof.
  intros I; rewrite Map_set_keys.
  destruct (existsb _ (Map_keys m)); [exact I | apply in_or_app; left; exact I].
Qed.

Lemma Map_set_length_ge (m : Map) (k v : jsstring) :
  (List.length m <= List.length (Map_set m k v))%nat.
Proof.
  induction m as [|[k' v'] m IH]; simpl; [lia|].
  destruct (str_eqb k' k); simpl; lia.
Qed.

(** X12. One call adds one entry at most, whatever the dictionary (the
    empty one too) and whatever the chunk; and no command but [CLEAR]
    removes a word: for every chunk whose verb is not [CLEAR], the
    dictionary has no fewer entries after the call and every word of it is
    still a word of it. *)
Theorem X12_only_clear_removes (m : Map) (data : jsstring) :
  (List.length (store_after m data) <= S (List.length m))%nat /\
  (verb data <> Some (lit "CLEAR") ->
   (List.length m <= List.length (store_after m data))%nat /\
   (forall k : jsstring,
      In k (Map_keys m) -> In k (Map_keys (store_after m data)))).
Proof.
  destruct (list_eq_dec N.eq_dec (hd [] (tokens data)) (lit "SET")) as [HS|NS].
  - destruct (tokens data) as [|v [|word [|t ts]]] eqn:H;
      [discriminate HS | simpl in HS; subst v ..].
    + rewrite (store_after_SET_short _ _ _ H) by (simpl; lia).
      split; [lia | intros _; split; [lia | auto]].
    + rewrite (store_after_SET_short _ _ _ H) by (simpl; lia).
      split; [lia | intros _; split; [lia | auto]].
    + rewrite (store_after_SET _ _ _ _ _ H).
      split; [apply Map_set_length | intros _; split].
      * apply Map_set_length_ge.
      * intros k I; apply Map_set_keeps_keys, I.
  - destruct (list_eq_dec N.eq_dec (hd [] (tokens data)) (lit "CLEAR"))
      as [C|NC].
    + destruct (tokens data) as [|v rest] eqn:H; [discriminate C|].
      simpl in C; subst v.
      rewrite (store_after_CLEAR _ _ _ H).
      split; [simpl; lia|].
      intros NV; exfalso; apply NV; unfold verb; rewrite H; reflexivity.
    + rewrite store_after_unchanged;
        [split; [lia | intros _; split; [lia | auto]] | |];
        unfold verb; destruct (tokens data); simpl in *; congruence.
Qed.

Lemma X12_only_clear_removes_witness :
  (List.length (store_after Map_new (SET_line (lit "qux") (lit "z"))) <= 1)%nat /\
  verb (SET_line (lit "qux") (lit "z")) <> Some (lit "CLEAR") /\
  In (lit "foo")
     (Map_keys (store_after [(lit "foo", lit "bar")]
                  (SET_line (lit "qux") (lit "z")))).
Proof.
  assert (NC : verb (SET_line (lit "qux") (lit "z")) <> Some (lit "CLEAR"))
    by discriminate.
  split; [|split; [exact NC |]].
  - apply (X12_only_clear_removes Map_new (SET_line (lit "qux") (lit "z"))).
  - apply (X12_only_clear_removes [(lit "foo", lit "bar")]
             (SET_line (lit "qux") (lit "z"))); [exact NC|].
    left; reflexivity.
Defined.

(** ** The answer of [ALL] *)

(** The first [\s] character of a string is where it is. *)
Lemma split_at_space (a b x y : jsstring) :
  no_space a = true -> no_space b = true ->
  a ++ 32 :: x = b ++ 32 :: y -> a = b /\ x = y.
Proof.
  revert b; induction a as [|c a IH]; intros [|c' b] A B E; simpl in *.
  - injection E as ->; auto.
  - injection E as <- _; discriminate B.
  - injection E as -> _; discriminate A.
  - injection E as -> E.
    apply andb_true_iff in A as [_ A]; apply andb_true_iff in B as [_ B].
    destruct (IH b A B E) as [-> ->]; auto.
Qed.

Lemma join_cons2 (sep k k2 : jsstring) (r : list jsstring) :
  join sep (k :: k2 :: r) = k ++ sep ++ join sep (k2 :: r).
Proof. reflexivity. Qed.

Lemma no_space_join_comma (k k2 : jsstring) (r : list jsstring) :
  no_space (join (lit ", ") (k :: k2 :: r)) = false.
Proof.
  rewrite join_cons2, !no_space_app.
  change (no_space (lit ", ")) with false.
  rewrite andb_false_l, andb_false_r; reflexivity.
Qed.

(** Words joined by comma and space can be told apart again. *)
Lemma join_comma_inj (ks ks' : list jsstring) :
  forallb is_token ks = true -> forallb is_token ks' = true ->
  join (lit ", ") ks = join (lit ", ") ks' -> ks = ks'.
Proof.
  revert ks'; induction ks as [|k r IH]; intros [|k' r'] T T' E.
  - reflexivity.
  - simpl in T'; apply andb_true_iff in T' as [T' _].
    pose proof (join_truthy (lit ", ") k' r' (is_token_truthy _ T')) as J.
    rewrite <- E in J; discriminate J.
  - simpl in T; apply andb_true_iff in T as [T _].
    pose proof (join_truthy (lit ", ") k r (is_token_truthy _ T)) as J.
    rewrite E in J; discriminate J.
  - simpl in T, T'.
    apply andb_true_iff in T as [Tk Tr]; apply andb_true_iff in T' as [Tk' Tr'].
    apply is_token_no_space in Tk, Tk'.
    destruct r as [|k2 r], r' as [|k2' r'].
    + simpl in E; subst; reflexivity.
    + pose proof (no_space_join_comma k' k2' r') as F.
      rewrite <- E in F; simpl in F; congruence.
    + pose proof (no_space_join_comma k k2 r) as F.
      rewrite E in F; simpl in F; congruence.
    + rewrite !join_cons2 in E.
      change (lit ", " ++ join (lit ", ") (k2 :: r))
        with ([44] ++ 32 :: join (lit ", ") (k2 :: r)) in E.
      change (lit ", " ++ join (lit ", ") (k2' :: r'))
        with ([44] ++ 32 :: join (lit ", ") (k2' :: r')) in E.
      rewrite !app_assoc in E.
      apply split_at_space in E as [Ek Er];
        [| rewrite no_space_app, Tk; reflexivity
         | rewrite no_space_app, Tk'; reflexivity].
      apply app_inj_tail in Ek as [-> _].
      rewrite (IH (k2' :: r') Tr Tr' Er); reflexivity.
Qed.

(** X13. The reply to [ALL] tells the words of the dictionary and their
    order: two dictionaries the server can hold whose replies to an [ALL]
    chunk are the same have the same list of words. A word has no space, so
    the commas inside words cannot be taken for separators. *)
Theorem X13_all_reply_determines_words (history history' : list jsstring)
    (data data' : jsstring) (rest rest' : list jsstring) :
  tokens data = lit "ALL" :: rest ->
  tokens data' = lit "ALL" :: rest' ->
  reply (served history) data = reply (served history') data' ->
  Map_keys (served history) = Map_keys (served history').
Proof.
  intros H H'; unfold reply.
  rewrite (dataHandler_ALL _ _ _ H), (dataHandler_ALL _ _ _ H'); shown.
  pose proof (keys_tokens _ (served_ok history)) as T.
  pose proof (keys_tokens _ (served_ok history')) as T'.
  intros E; apply (f_equal (hd [])) in E; cbn [hd] in E.
  apply (join_comma_inj _ _ T T').
  destruct (join (lit ", ") (Map_keys (served history))) as [|c ws];
    destruct (join (lit ", ") (Map_keys (served history'))) as [|c' ws'].
  - reflexivity.
  - discriminate E.
  - discriminate E.
  - apply app_inv_head in E.
    change (lit "." ++ CRLF) with [46; 13; 10] in E.
    apply (app_inv_tail [46; 13; 10]); exact E.
Qed.

Lemma X13_all_reply_determines_words_witness :
  tokens (line (lit "ALL")) = [lit "ALL"] /\
  reply (served [SET_line (lit "a,") (lit "x"); SET_line (lit "b") (lit "y")])
        (line (lit "ALL"))
    = reply (served [SET_line (lit "a,") (lit "z"); SET_line (lit "b") (lit "y");
                     SET_line (lit "a,") (lit "x")])
        (line (lit "ALL")) /\
  Map_keys (served [SET_line (lit "a,") (lit "x"); SET_line (lit "b") (lit "y")])
    = Map_keys (served [SET_line (lit "a,") (lit "z"); SET_line (lit "b") (lit "y");
                        SET_line (lit "a,") (lit "x")]).
Proof.
  split; [reflexivity | split; [reflexivity |]].
  apply (X13_all_reply_determines_words
           [SET_line (lit "a,") (lit "x"); SET_line (lit "b") (lit "y")]
           [SET_line (lit "a,") (lit "z"); SET_line (lit "b") (lit "y");
            SET_line (lit "a,") (lit "x")]
           (line (lit "ALL")) (line (lit "ALL")) [] [] eq_refl eq_refl eq_refl).
Defined.

(** ** Sessions *)

Lemma exec_bind {A : Type} (m : M A) (k : M unit) (w : World) :
  exec (bind m (fun _ => k)) w = exec k (exec m w).
Proof. unfold exec, bind; destruct (m w); reflexivity. Qed.

Lemma deliver_all_app (l1 l2 : list event) (w : World) :
  exec (deliver_all (l1 ++ l2)) w
    = exec (deliver_all l2) (exec (deliver_all l1) w).
Proof.
  revert w; induction l1 as [|ev l1 IH]; intros w; [reflexivity|].
  simpl; rewrite !exec_bind; apply IH.
Qed.

Lemma deliver_open (ev : event) (w : World) :
  destroyed (socket w) = false ->
  exec (deliver ev) w =
    match ev with
    | EvData data => exec (dataHandler data) w
    | EvEnd => exec endHandler w
    end.
Proof. intros D; unfold exec, deliver; rewrite D; destruct ev; reflexivity. Qed.

(** The data events of an open session: the replies are written one after
    the other and the dictionary goes through the chunks in order. *)
Lemma deliver_all_data (datas : list jsstring) (w : World) :
  destroyed (socket w) = false ->
  exec (deliver_all (map EvData datas)) w =
    wrote (with_responses w (fold_left store_after datas (responses w)))
          (replies (responses w) datas).
Proof.
  revert w; induction datas as [|data datas IH]; intros w D.
  - destruct w as [m [a p wr d]]; unfold exec, wrote, with_responses; simpl.
    rewrite app_nil_r; reflexivity.
  - simpl; rewrite exec_bind, (deliver_open _ _ D), dataHandler_effect.
    rewrite IH by exact D.
    unfold wrote, with_responses; simpl; rewrite app_assoc; reflexivity.
Qed.

(** X14. A whole session, from the acceptance of the connection to the
    half-close of the peer: the two lines of the greeting are written first,
    then the replies to the chunks in the order of their arrival, each
    computed on the dictionary left by the chunks before it, then the
    farewell; the socket ends destroyed, its address and port as they were,
    and the dictionary is the one left by the last chunk. *)
Theorem X14_whole_session (m : Map) (a : jsstring) (p : N)
    (datas : list jsstring) :
  exec (tcpHandler ;; deliver_all (map EvData datas ++ [EvEnd])) (accept m a p)
    = mkWorld (fold_left store_after datas m)
        (mkSocket a p (greeting ++ replies m datas ++ [farewell]) true).
Proof.
  rewrite exec_bind, deliver_all_app.
  assert (G : exec tcpHandler (accept m a p)
              = mkWorld m (mkSocket a p greeting false)) by reflexivity.
  rewrite G.
  rewrite (deliver_all_data datas (mkWorld m (mkSocket a p greeting false))
             eq_refl).
  cbn [deliver_all]; rewrite exec_bind, deliver_open by reflexivity.
  unfold endHandler; rewrite exec_bind.
  unfold exec, ret, write, destroy, wrote, with_responses.
  cbn [snd responses socket addr port written destroyed].
  rewrite <- app_assoc; reflexivity.
Qed.

(** ** Several connections *)

Lemma nth_error_set_nth_same {A : Type} (l : list A) (i : nat) (x y : A) :
  nth_error l i = Some y -> nth_error (set_nth i x l) i = Some x.
Proof.
  revert i; induction l as [|z l IH]; intros [|i] H; simpl in *;
    try discriminate; [reflexivity | apply IH, H].
Qed.

Lemma nth_error_set_nth_other {A : Type} (l : list A) (i j : nat) (x : A) :
  i <> j -> nth_error (set_nth i x l) j = nth_error l j.
Proof.
  revert i j; induction l as [|z l IH]; intros [|i] [|j] N; simpl;
    try reflexivity; [contradiction | apply IH; congruence].
Qed.

Lemma length_set_nth {A : Type} (l : list A) (i : nat) (x : A) :
  List.length (set_nth i x l) = List.length l.
Proof.
  revert i; induction l as [|z l IH]; intros [|i]; simpl; auto.
Qed.

(** What a listener leaves in the dictionary. *)
Lemma responses_deliver (ev : event) (w : World) :
  responses (exec (deliver ev) w) =
    match ev with
    | EvData data =>
        if destroyed (socket w) then responses w
        else store_after (responses w) data
    | EvEnd => responses w
    end.
Proof.
  unfold exec at 1, deliver.
  destruct (destroyed (socket w)) eqn:D; [destruct ev; reflexivity|].
  destruct ev as [data|]; [|reflexivity].
  fold (exec (dataHandler data) w); rewrite dataHandler_effect; reflexivity.
Qed.

Lemma dictionary_step (s : Server) (e : loop_event) :
  dictionary (step s e) = dictionary s \/
  exists data : jsstring, dictionary (step s e) = store_after (dictionary s) data.
Proof.
  destruct e as [a p|i ev]; [left; reflexivity|].
  unfold step, on_socket.
  destruct (nth_error (sockets s) i) as [sock|]; [|left; reflexivity].
  cbn [dictionary]; rewrite responses_deliver; cbn [socket responses].
  destruct ev as [data|]; [|left; reflexivity].
  destruct (destroyed sock); [left; reflexivity | right; exists data; reflexivity].
Qed.

Lemma run_loop_served (es : list loop_event) (s : Server) :
  (exists history, dictionary s = served history) ->
  exists history, dictionary (run_loop es s) = served history.
Proof.
  revert s; induction es as [|e es IH]; intros s [h E]; [exists h; exact E|].
  apply IH.
  destruct (dictionary_step s e) as [->|[data ->]].
  - exists h; exact E.
  - exists (h ++ [data]); rewrite served_snoc, E; reflexivity.
Qed.

(** X15. No command closes a connection, only its end does. A chunk that
    arrives on an open connection, whatever it holds, leaves that socket
    open, with its address and port, and with the reply to the chunk
    appended to what was written on it; the dictionary of the server
    becomes the one the chunk leaves. The end of an open connection writes
    the farewell on its socket and destroys it, and leaves the
    dictionary as it was. *)
Theorem X15_only_end_closes (s : Server) (i : nat) (si : TCPSocket)
    (data : jsstring) :
  nth_error (sockets s) i = Some si -> destroyed si = false ->
  step s (Socket i (EvData data))
    = mkServer (store_after (dictionary s) data)
        (set_nth i
           (mkSocket (addr si) (port si)
              (written si ++ reply (dictionary s) data) false)
           (sockets s)) /\
  step s (Socket i EvEnd)
    = mkServer (dictionary s)
        (set_nth i
           (mkSocket (addr si) (port si) (written si ++ [farewell]) true)
           (sockets s)).
Proof.
  intros Hi Di; unfold step, on_socket; rewrite Hi; split.
  - rewrite (deliver_open _ (mkWorld (dictionary s) si) Di), dataHandler_effect.
    unfold wrote, with_responses; cbn [responses socket].
    rewrite Di; reflexivity.
  - rewrite (deliver_open _ (mkWorld (dictionary s) si) Di).
    unfold endHandler; rewrite exec_bind.
    unfold exec, write, destroy; cbn [snd responses socket addr port written].
    reflexivity.
Qed.

Lemma X15_only_end_closes_witness :
  let s := run_loop [Connection (lit "10.0.0.1") 40000;
                     Connection (lit "10.0.0.2") 40001] started in
  nth_error (sockets s) 1
    = Some (mkSocket (lit "10.0.0.2") 40001 greeting false) /\
  sockets (step s (Socket 1 (EvData (line (lit "PING")))))
    = [mkSocket (lit "10.0.0.1") 40000 greeting false;
       mkSocket (lit "10.0.0.2") 40001
         (greeting ++ [lit "ERROR Command not found." ++ CRLF; separator])
         false].
Proof.
  cbv zeta; split; [reflexivity|].
  pose proof (X15_only_end_closes
                (run_loop [Connection (lit "10.0.0.1") 40000;
                           Connection (lit "10.0.0.2") 40001] started)
                1 (mkSocket (lit "10.0.0.2") 40001 greeting false)
                (line (lit "PING")) eq_refl eq_refl) as [H _].
  rewrite H; reflexivity.
Defined.

(** X16. The dictionary is the server's, not the connection's: a word set
    by a well-formed [SET] on one open connection is answered to a [GET] on
    another open connection, also after the first connection has ended. *)
Theorem X16_dictionary_is_shared (s : Server) (i j : nat) (si sj : TCPSocket)
    (sdata gdata word t : jsstring) (ts rest : list jsstring) :
  nth_error (sockets s) i = Some si -> destroyed si = false ->
  nth_error (sockets s) j = Some sj -> destroyed sj = false ->
  i <> j ->
  tokens sdata = lit "SET" :: word :: t :: ts ->
  tokens gdata = lit "GET" :: word :: rest ->
  nth_error
    (sockets (run_loop [Socket i (EvData sdata); Socket i EvEnd;
                        Socket j (EvData gdata)] s)) j
    = Some (mkSocket (addr sj) (port sj)
              (written sj ++
               [lit "ANSWER " ++ join (lit " ") (t :: ts) ++ CRLF; separator])
              false).
Proof.
  intros Hi Di Hj Dj N HS HG.
  unfold run_loop; cbn [fold_left].
  set (s1 := step s (Socket i (EvData sdata))).
  assert (D1 : dictionary s1 = store_after (dictionary s) sdata).
  { unfold s1, step, on_socket; rewrite Hi; cbn [dictionary].
    rewrite responses_deliver; cbn [socket responses]; rewrite Di; reflexivity. }
  assert (J1 : nth_error (sockets s1) j = Some sj).
  { unfold s1, step, on_socket; rewrite Hi; cbn [sockets].
    rewrite (nth_error_set_nth_other _ _ _ _ N); exact Hj. }
  set (s2 := step s1 (Socket i EvEnd)).
  assert (D2 : dictionary s2 = store_after (dictionary s) sdata).
  { rewrite <- D1; unfold s2, step, on_socket.
    destruct (nth_error (sockets s1) i); [|reflexivity].
    cbn [dictionary]; apply responses_deliver. }
  assert (J2 : nth_error (sockets s2) j = Some sj).
  { unfold s2, step, on_socket.
    destruct (nth_error (sockets s1) i); [|exact J1].
    cbn [sockets]; rewrite (nth_error_set_nth_other _ _ _ _ N); exact J1. }
  unfold step at 1, on_socket; rewrite J2; cbn [sockets].
  rewrite (nth_error_set_nth_same _ _ _ _ J2); f_equal.
  rewrite (deliver_open _ (mkWorld (dictionary s2) sj) Dj), dataHandler_effect.
  cbn [responses]; rewrite D2, (reply_GET_after_SET _ _ _ _ _ _ _ HS HG).
  rewrite <- Dj; destruct sj; reflexivity.
Qed.

Lemma X16_dictionary_is_shared_witness :
  let s := run_loop [Connection (lit "10.0.0.1") 40000;
                     Connection (lit "10.0.0.2") 40001] started in
  nth_error (sockets s) 0 = Some (mkSocket (lit "10.0.0.1") 40000 greeting false) /\
  nth_error (sockets s) 1 = Some (mkSocket (lit "10.0.0.2") 40001 greeting false) /\
  0%nat <> 1%nat /\
  tokens (SET_line (lit "foo") (lit "bar")) = [lit "SET"; lit "foo"; lit "bar"] /\
  tokens (GET_line (lit "foo")) = [lit "GET"; lit "foo"] /\
  nth_error
    (sockets (run_loop [Socket 0 (EvData (SET_line (lit "foo") (lit "bar")));
                        Socket 0 EvEnd;
                        Socket 1 (EvData (GET_line (lit "foo")))] s)) 1
    = Some (mkSocket (lit "10.0.0.2") 40001
              (greeting ++ [lit "ANSWER bar" ++ CRLF; separator]) false).
Proof.
  cbv zeta.
  assert (N : 0%nat <> 1%nat) by discriminate.
  repeat (split; [first [reflexivity | exact N] |]).
  apply (X16_dictionary_is_shared
           (run_loop [Connection (lit "10.0.0.1") 40000;
                      Connection (lit "10.0.0.2") 40001] started)
           0 1 (mkSocket (lit "10.0.0.1") 40000 greeting false)
           (mkSocket (lit "10.0.0.2") 40001 greeting false)
           (SET_line (lit "foo") (lit "bar")) (GET_line (lit "foo"))
           (lit "foo") (lit "bar") [] []
           eq_refl eq_refl eq_refl eq_refl N eq_refl eq_refl).
Defined.

(** X17. Whatever connections are accepted and in whatever order their
    events are handled, the dictionary of the server is one that a single
    sequence of chunks gives; so it keeps the invariant (no empty word, no
    whitespace in a word, no empty description), lists no word twice, and
    holds only normalized descriptions. *)
Theorem X17_dictionary_of_any_interleaving (es : list loop_event) :
  (exists history : list jsstring,
     dictionary (run_loop es started) = served history) /\
  store_ok (dictionary (run_loop es started)) = true /\
  NoDup (Map_keys (dictionary (run_loop es started))) /\
  store_normalized (dictionary (run_loop es started)) = true.
Proof.
  destruct (run_loop_served es started) as [h E];
    [exists []; reflexivity|].
  split; [exists h; exact E | rewrite E].
  split; [apply served_ok | split; [apply served_wf | apply served_normalized]].
Qed.

(** X18. Two well-formed [SET] chunks for different words can be handled in
    either order: both words are then answered with their own description,
    and every lookup gives the same result in the two orders (the order of
    the words in the dictionary may differ). *)
Theorem X18_sets_of_different_words_commute (m : Map)
    (data1 data2 word1 word2 t1 t2 : jsstring) (ts1 ts2 : list jsstring) :
  tokens data1 = lit "SET" :: word1 :: t1 :: ts1 ->
  tokens data2 = lit "SET" :: word2 :: t2 :: ts2 ->
  word1 <> word2 ->
  Map_get (store_after (store_after m data1) data2) word1
    = Some (join (lit " ") (t1 :: ts1)) /\
  Map_get (store_after (store_after m data1) data2) word2
    = Some (join (lit " ") (t2 :: ts2)) /\
  (forall k : jsstring,
     Map_get (store_after (store_after m data1) data2) k
       = Map_get (store_after (store_after m data2) data1) k).
Proof.
  intros H1 H2 N.
  rewrite !(store_after_SET _ _ _ _ _ H2), !(store_after_SET _ _ _ _ _ H1).
  split; [|split].
  - rewrite (Map_get_set_other _ _ _ _ N); apply Map_get_set_same.
  - apply Map_get_set_same.
  - intros k.
    destruct (list_eq_dec N.eq_dec k word1) as [->|N1].
    + rewrite (Map_get_set_other _ _ _ _ N), !Map_get_set_same; reflexivity.
    + destruct (list_eq_dec N.eq_dec k word2) as [->|N2].
      * rewrite Map_get_set_same, (Map_get_set_other _ _ _ _ N1).
        rewrite Map_get_set_same; reflexivity.
      * rewrite !Map_get_set_other by assumption; reflexivity.
Qed.

Lemma X18_sets_of_different_words_commute_witness :
  tokens (SET_line (lit "foo") (lit "a")) = [lit "SET"; lit "foo"; lit "a"] /\
  tokens (SET_line (lit "qux") (lit "b")) = [lit "SET"; lit "qux"; lit "b"] /\
  lit "foo" <> lit "qux" /\
  Map_get (store_after (store_after Map_new (SET_line (lit "foo") (lit "a")))
                       (SET_line (lit "qux") (lit "b"))) (lit "foo")
    = Some (lit "a") /\
  Map_keys (store_after (store_after Map_new (SET_line (lit "foo") (lit "a")))
                        (SET_line (lit "qux") (lit "b")))
    <> Map_keys (store_after (store_after Map_new (SET_line (lit "qux") (lit "b")))
                             (SET_line (lit "foo") (lit "a"))).
Proof.
  assert (N : lit "foo" <> lit "qux") by discriminate.
  split; [reflexivity | split; [reflexivity | split; [exact N |]]].
  split; [|discriminate].
  apply (X18_sets_of_different_words_commute Map_new
           (SET_line (lit "foo") (lit "a")) (SET_line (lit "qux") (lit "b"))
           (lit "foo") (lit "qux") (lit "a") (lit "b") [] []
           eq_refl eq_refl N).
Defined.

(** X19. [CLEAR] forgets every word: after a chunk whose verb is [CLEAR],
    whatever the dictionary was, a [GET] of any word is answered
    [ERROR Could not find the specified word.], and a well-formed [SET]
    that follows leaves a dictionary of that one entry. *)
Theorem X19_clear_forgets_everything (m : Map)
    (cdata gdata sdata word sword t : jsstring) (crest rest ts : list jsstring) :
  tokens cdata = lit "CLEAR" :: crest ->
  tokens gdata = lit "GET" :: word :: rest ->
  tokens sdata = lit "SET" :: sword :: t :: ts ->
  reply (store_after m cdata) gdata
    = [lit "ERROR Could not find the specified word." ++ CRLF; separator] /\
  store_after (store_after m cdata) sdata
    = [(sword, join (lit " ") (t :: ts))].
Proof.
  intros C G S; rewrite (store_after_CLEAR _ _ _ C); split.
  - unfold reply; rewrite (dataHandler_GET _ _ _ _ G); reflexivity.
  - rewrite (store_after_SET _ _ _ _ _ S); reflexivity.
Qed.

Lemma X19_clear_forgets_everything_witness :
  tokens (line (lit "CLEAR")) = [lit "CLEAR"] /\
  tokens (GET_line (lit "foo")) = [lit "GET"; lit "foo"] /\
  tokens (SET_line (lit "qux") (lit "z")) = [lit "SET"; lit "qux"; lit "z"] /\
  reply (store_after [(lit "foo", lit "bar")] (line (lit "CLEAR")))
        (GET_line (lit "foo"))
    = [lit "ERROR Could not find the specified word." ++ CRLF; separator].
Proof.
  split; [reflexivity | split; [reflexivity | split; [reflexivity |]]].
  apply (X19_clear_forgets_everything [(lit "foo", lit "bar")]
           (line (lit "CLEAR")) (GET_line (lit "foo"))
           (SET_line (lit "qux") (lit "z")) (lit "foo") (lit "qux") (lit "z")
           [] [] [] eq_refl eq_refl eq_refl).
Defined.
